(** * Translation-memory database ([translate/storage/tm_db.py])

    A shallow embedding of the [TMDB] class: the deduplicating insertion
    protocol ([add_unit], [add_store]) over the two SQLite tables, and the
    fuzzy retrieval ([translate_unit]) with its Levenshtein length window.

    Conventions of the embedding:
    - a Python call that may raise returns a [result]; a method that also
      changes the connection returns the outcome paired with the new
      connection state, because the state survives an exception;
    - the SQLite connection is a pair of table snapshots: what is committed
      and what the open transaction currently sees;
    - Python floats are IEEE-754 binary64 values, computed with the
      standard library's executable [SpecFloat] model;
    - the outside world (clock, storage failures, the comparer object) is
      passed in explicitly. *)

From Stdlib Require Import ZArith QArith Qround Qminmax Qpower List String Ascii Bool.
From Stdlib Require Import Lia Lqa.
From Stdlib Require Import Sorting.Sorted Sorting.Permutation.
From Stdlib Require Import Floats.SpecFloat.
Import ListNotations.

Local Open Scope string_scope.
Local Open Scope Z_scope.

(** ** Python values *)

Module Py.

(** The exceptions that the module can let escape. *)
Inductive exn : Type :=
| LanguageError (value : string)
| IntegrityError
| OperationalError
| TypeError
| AttributeError
| ZeroDivisionError
| OverflowError.

Inductive result (A : Type) : Type :=
| Ok (a : A)
| Raise (e : exn).
Arguments Ok {A} a.
Arguments Raise {A} e.

Definition bind {A B : Type} (r : result A) (k : A -> result B) : result B :=
  match r with
  | Ok a => k a
  | Raise e => Raise e
  end.

(** A [unicode] object is its sequence of code points; a [str] object (a
    byte string in Python 2) is a Rocq [string]. *)
Definition unicode : Type := list N.
Definition str : Type := string.

Definition byte_of_N (n : N) : ascii := ascii_of_N (n mod 256).

(** [u.encode("utf-8")] for one code point. *)
Definition encode_code_point (c : N) : list ascii :=
  (if c <? 128 then [byte_of_N c]
   else if c <? 2048 then
     [byte_of_N (192 + c / 64); byte_of_N (128 + c mod 64)]
   else if c <? 65536 then
     [byte_of_N (224 + c / 4096); byte_of_N (128 + (c / 64) mod 64);
      byte_of_N (128 + c mod 64)]
   else
     [byte_of_N (240 + c / 262144); byte_of_N (128 + (c / 4096) mod 64);
      byte_of_N (128 + (c / 64) mod 64); byte_of_N (128 + c mod 64)])%N.

Definition encode_utf8 (u : unicode) : str :=
  string_of_list_ascii (flat_map encode_code_point u).

(** A unicode literal made of ASCII characters. *)
Definition u (s : string) : unicode := map N_of_ascii (list_ascii_of_string s).

(** [len] of a unicode object and of a byte string. *)
Definition len_unicode (x : unicode) : Z := Z.of_nat (List.length x).
Definition len_str (x : str) : Z := Z.of_nat (String.length x).

(** [sep.join(items)] *)
Fixpoint join (sep : str) (items : list str) : str :=
  match items with
  | [] => ""
  | [x] => x
  | x :: rest => x ++ sep ++ join sep rest
  end.

(** Truth value of an object that is [None] or a string. *)
Definition truthy (o : option str) : bool :=
  match o with
  | None => false
  | Some s => negb (String.eqb s "")
  end.

(** What a method without a [return] value hands back. *)
Definition NoneType : Type := Datatypes.unit.

(** [l[:n]]: a negative bound counts from the end. *)
Definition slice_to {A : Type} (n : Z) (l : list A) : list A :=
  if 0 <=? n then firstn (Z.to_nat n) l
  else firstn (Z.to_nat (Z.of_nat (List.length l) + n)) l.

End Py.
Import Py.

(** ** Binary64 arithmetic *)

Module Float64.

Definition prec : Z := 53.
Definition emax : Z := 1024.

Definition float : Type := spec_float.

(** [float(n)] for a Python integer: the nearest double, ties to even.
    Beyond the range of binary64 Python raises OverflowError where this
    gives an infinity; the statements about values are made for lengths
    and floors inside the range. *)
Definition of_int (n : Z) : float := binary_normalize prec emax n 0 false.

Definition mul : float -> float -> float := SFmul prec emax.
Definition div : float -> float -> float := SFdiv prec emax.

Definition is_zero (x : float) : bool :=
  match x with
  | S754_zero _ => true
  | _ => false
  end.

(** The exact value of a finite double as a fraction [(n, d)], [d] a
    positive power of two. *)
Definition to_frac (x : float) : option (Z * Z) :=
  match x with
  | S754_zero _ => Some (0, 1)
  | S754_finite s m e =>
      let n := if s then Z.neg m else Z.pos m in
      Some (if 0 <=? e then (n * 2 ^ e, 1) else (n, 2 ^ (- e)))
  | S754_infinity _ => None
  | S754_nan => None
  end.

End Float64.

(** A Python number as the window computation meets it. *)
Inductive pynum : Type :=
| PyInt (z : Z)
| PyFloat (x : Float64.float).

(** [a < b] between a Python integer and a float is exact. *)
Definition int_lt_float (a : Z) (x : Float64.float) : bool :=
  match x with
  | S754_infinity s => negb s
  | S754_nan => false
  | _ =>
      match Float64.to_frac x with
      | Some (n, d) => a * d <? n
      | None => false
      end
  end.

Definition float_lt_int (x : Float64.float) (a : Z) : bool :=
  match x with
  | S754_infinity s => s
  | S754_nan => false
  | _ =>
      match Float64.to_frac x with
      | Some (n, d) => n <? a * d
      | None => false
      end
  end.

Definition py_lt (a b : pynum) : bool :=
  match a, b with
  | PyInt x, PyInt y => x <? y
  | PyInt x, PyFloat y => int_lt_float x y
  | PyFloat x, PyInt y => float_lt_int x y
  | PyFloat x, PyFloat y => SFltb x y
  end.

(** [max(a, b)] keeps [a] unless [b > a]; [min(a, b)] keeps [a] unless
    [b < a]. *)
Definition py_max (a b : pynum) : pynum := if py_lt a b then b else a.
Definition py_min (a b : pynum) : pynum := if py_lt b a then b else a.

(** [x / y] with a float divisor. *)
Definition py_truediv (x y : Float64.float) : result Float64.float :=
  if Float64.is_zero y then Raise ZeroDivisionError else Ok (Float64.div x y).

(** [math.floor] and [math.ceil].  The value is integral, so it is returned
    as an integer (Python 2 returns it as a float, which SQLite compares
    with the integer column by value).  A non-finite argument has no
    integral value: the model stops there with OverflowError, as Python 3
    does, where Python 2 would hand the infinity or NaN on to the query. *)
Definition math_floor (a : pynum) : result Z :=
  match a with
  | PyInt z => Ok z
  | PyFloat x =>
      match Float64.to_frac x with
      | Some (n, d) => Ok (n / d)
      | None => Raise OverflowError
      end
  end.

Definition math_ceil (a : pynum) : result Z :=
  match a with
  | PyInt z => Ok z
  | PyFloat x =>
      match Float64.to_frac x with
      | Some (n, d) => Ok (- ((- n) / d))
      | None => Raise OverflowError
      end
  end.

(** ** The Levenshtein length window *)

(** [math.ceil(max(length * (min_similarity/100.0), 2))] *)
Definition min_levenshtein_length (length min_similarity : Z) : result Z :=
  bind (py_truediv (Float64.of_int min_similarity) (Float64.of_int 100))
    (fun ratio =>
       math_ceil (py_max (PyFloat (Float64.mul (Float64.of_int length) ratio))
                         (PyInt 2))).

(** [math.floor(min(length / (min_similarity/100.0), max_length))] *)
Definition max_levenshtein_length (length min_similarity max_length : Z)
  : result Z :=
  bind (py_truediv (Float64.of_int min_similarity) (Float64.of_int 100))
    (fun ratio =>
       bind (py_truediv (Float64.of_int length) ratio)
         (fun q => math_floor (py_min (PyFloat q) (PyInt max_length)))).



(** ** The SQLite store *)

Module Sqlite.

(** A row of [sources] and a row of [targets], column by column. *)
Record source_row : Type := {
  s_sid : Z;
  s_text : unicode;
  s_context : option unicode;
  s_lang : str;
  s_length : Z
}.

Record target_row : Type := {
  t_tid : Z;
  t_sid : Z;
  t_text : unicode;
  t_lang : str;
  t_length : Z;
  t_time : Z
}.

(** The two tables with their AUTOINCREMENT counters (the largest rowid
    handed out so far, as kept in [sqlite_sequence]). *)
Record tables : Type := {
  sources : list source_row;
  targets : list target_row;
  sources_seq : Z;
  targets_seq : Z
}.

(** A connection: the committed database and the view of the open
    transaction. *)
Record connection : Type := {
  committed : tables;
  working : tables
}.

Definition empty_tables : tables :=
  {| sources := []; targets := []; sources_seq := 0; targets_seq := 0 |}.

(** A fresh database file after [init_database]. *)
Definition empty_connection : connection :=
  {| committed := empty_tables; working := empty_tables |}.

Definition commit (c : connection) : connection :=
  {| committed := working c; working := working c |}.

Definition rollback (c : connection) : connection :=
  {| committed := committed c; working := committed c |}.

Definition with_working (c : connection) (t : tables) : connection :=
  {| committed := committed c; working := t |}.

Definition unicode_eqb (a b : unicode) : bool :=
  if list_eq_dec N.eq_dec a b then true else false.

(** SQL [=] on a nullable column: NULL equals nothing, not even NULL. *)
Definition sql_eq_nullable (a b : option unicode) : bool :=
  match a, b with
  | Some x, Some y => unicode_eqb x y
  | _, _ => false
  end.

(** [sources_uniq_idx ON sources (text, context, lang)]: a row collides
    with the new entry when all three columns are equal; rows with a NULL
    context never collide. *)
Definition source_collides (text : unicode) (context : option unicode)
    (lang : str) (r : source_row) : bool :=
  unicode_eqb (s_text r) text
  && sql_eq_nullable (s_context r) context
  && String.eqb (s_lang r) lang.

(** [targets_uniq_idx ON targets (sid, text, lang)] *)
Definition target_collides (sid : Z) (text : unicode) (lang : str)
    (r : target_row) : bool :=
  (t_sid r =? sid) && unicode_eqb (t_text r) text && String.eqb (t_lang r) lang.

(** [INSERT INTO sources (text, context, lang, length) VALUES (?, ?, ?, ?)],
    returning [lastrowid]. *)
Definition insert_source (t : tables) (text : unicode)
    (context : option unicode) (lang : str) (length : Z)
  : result (Z * tables) :=
  if existsb (source_collides text context lang) (sources t)
  then Raise IntegrityError
  else
    let sid := sources_seq t + 1 in
    Ok (sid,
        {| sources := sources t ++
                      [{| s_sid := sid; s_text := text; s_context := context;
                          s_lang := lang; s_length := length |}];
           targets := targets t;
           sources_seq := sid;
           targets_seq := targets_seq t |}).

(** [SELECT sid FROM sources WHERE text=? AND context=? and lang=?]
    followed by [fetchone()]. *)
Definition select_sid (t : tables) (text : unicode)
    (context : option unicode) (lang : str) : option Z :=
  option_map s_sid (find (source_collides text context lang) (sources t)).

(** [INSERT INTO targets (sid, text, lang, length, time) VALUES (?, ?, ?, ?, ?)] *)
Definition insert_target (t : tables) (sid : Z) (text : unicode) (lang : str)
    (length time : Z) : result tables :=
  if existsb (target_collides sid text lang) (targets t)
  then Raise IntegrityError
  else
    let tid := targets_seq t + 1 in
    Ok {| sources := sources t;
          targets := targets t ++
                     [{| t_tid := tid; t_sid := sid; t_text := text;
                         t_lang := lang; t_length := length; t_time := time |}];
          sources_seq := sources_seq t;
          targets_seq := tid |}.

(** The statements [add_unit] sends, as points where the storage itself
    (disk, locking) may fail. *)
Inductive statement : Type :=
| InsertSource
| SelectSid
| InsertTarget
| Commit.

Definition statement_eqb (a b : statement) : bool :=
  match a, b with
  | InsertSource, InsertSource => true
  | SelectSid, SelectSid => true
  | InsertTarget, InsertTarget => true
  | Commit, Commit => true
  | _, _ => false
  end.

(** [fails fault st]: the storage raises at statement [st]. *)
Definition fails (fault : option statement) (st : statement) : bool :=
  match fault with
  | Some f => statement_eqb f st
  | None => false
  end.

(** Rows of [sources s JOIN targets t ON s.sid = t.sid].  The SELECT has
    no ORDER BY, so SQLite is free in the order of the rows; the order
    taken here goes by source row.  Which of several records of equal
    quality comes first is therefore not fixed by the code, and no
    statement below says which. *)
Definition join_rows (t : tables) : list (source_row * target_row) :=
  flat_map (fun s =>
              map (fun tr => (s, tr))
                  (filter (fun tr => s_sid s =? t_sid tr) (targets t)))
           (sources t).

End Sqlite.
Import Sqlite.

(** ** Translation units and documents *)

Record translation_unit : Type := {
  source : unicode;
  target : unicode;
  getcontext : option unicode;
  getsourcelanguage : option str;
  gettargetlanguage : option str;
  istranslatable : bool;
  istranslated : bool
}.

Record store : Type := {
  units : list translation_unit
}.

(** ** The TMDB object *)

(** [similarity(a, b, stoppercentage)] of the comparer object. *)
Definition comparer_t : Type := str -> str -> Z -> Q.

Record TMDB : Type := {
  max_candidates : Z;
  min_similarity : Z;
  max_length : Z;
  comparer : comparer_t
}.

(** The value bound to a [?] for a language that passed the truth test. *)
Definition lang_value (o : option str) : str :=
  match o with
  | Some s => s
  | None => ""
  end.

(** The first inner [try]: insert the source row, or on an IntegrityError
    look the existing row up; yields the owning [sid].  [fault] names the
    statement, if any, at which the storage fails during this call. *)
Definition source_step (fault : option statement) (t0 : tables)
    (unit : translation_unit) (source_lang : str) : result (Z * tables) :=
  if fails fault InsertSource then Raise OperationalError
  else
    match insert_source t0 (source unit) (getcontext unit) source_lang
                        (len_unicode (source unit)) with
    | Ok r => Ok r
    | Raise IntegrityError =>
        (* source string already exists in db, run query to find sid *)
        if fails fault SelectSid then Raise OperationalError
        else
          match select_sid t0 (source unit) (getcontext unit) source_lang with
          | Some sid => Ok (sid, t0)
          | None => Raise TypeError
          end
    | Raise e => Raise e
    end.

(** The second inner [try]: insert the target row; an IntegrityError is
    passed over.  [now] is [int(time.time())]. *)
Definition target_step (fault : option statement) (now : Z) (t1 : tables)
    (sid : Z) (unit : translation_unit) (target_lang : str) : result tables :=
  if fails fault InsertTarget then Raise OperationalError
  else
    match insert_target t1 sid (target unit) target_lang
                        (len_unicode (target unit)) now with
    | Ok t2 => Ok t2
    | Raise IntegrityError => Ok t1
    | Raise e => Raise e
    end.

(** The body of the outer [try] of [add_unit], up to and including the
    optional commit; the state returned with an exception is the one the
    [except] clause finds. *)
Definition add_unit_try (fault : option statement) (now : Z)
    (conn : connection) (unit : translation_unit) (source_lang target_lang : str)
    (commit : bool) : result NoneType * connection :=
  match source_step fault (working conn) unit source_lang with
  | Raise e => (Raise e, conn)
  | Ok (sid, t1) =>
      match target_step fault now t1 sid unit target_lang with
      | Raise e => (Raise e, with_working conn t1)
      | Ok t2 =>
          if commit then
            if fails fault Commit
            then (Raise OperationalError, with_working conn t2)
            else (Ok tt, Sqlite.commit (with_working conn t2))
          else (Ok tt, with_working conn t2)
      end
  end.

Definition add_unit (fault : option statement) (now : Z) (conn : connection)
    (unit : translation_unit) (source_lang target_lang : option str)
    (commit : bool)
  : result NoneType * connection :=
  let source_lang :=
    if truthy (getsourcelanguage unit) then getsourcelanguage unit
    else source_lang in
  let target_lang :=
    if truthy (gettargetlanguage unit) then gettargetlanguage unit
    else target_lang in
  if negb (truthy source_lang)
  then (Raise (LanguageError "undefined source language"), conn)
  else if negb (truthy target_lang)
  then (Raise (LanguageError "undefined target language"), conn)
  else
    match add_unit_try fault now conn unit (lang_value source_lang)
                       (lang_value target_lang) commit with
    | (Ok r, conn') => (Ok r, conn')
    | (Raise e, conn') =>
        (Raise e, if commit then rollback conn' else conn')
    end.

(** What the world does during one [add_store]: for the unit at each
    position of the document, the statement at which storage fails (if any)
    and the clock reading; and whether the final commit fails. *)
Record world : Type := {
  fault_at : nat -> option statement;
  clock : nat -> Z;
  commit_fails : bool
}.

Fixpoint add_store_loop (w : world) (i : nat) (conn : connection)
    (us : list translation_unit) (source_lang target_lang : option str)
  : result NoneType * connection :=
  match us with
  | [] => (Ok tt, conn)
  | unit :: rest =>
      if istranslatable unit && istranslated unit then
        match add_unit (fault_at w i) (clock w i) conn unit
                       source_lang target_lang false with
        | (Ok _, conn') =>
            add_store_loop w (S i) conn' rest source_lang target_lang
        | (Raise e, conn') => (Raise e, conn')
        end
      else add_store_loop w (S i) conn rest source_lang target_lang
  end.

Definition add_store (w : world) (conn : connection) (store : store)
    (source_lang target_lang : option str) (commit : bool)
  : result NoneType * connection :=
  match add_store_loop w 0 conn (units store) source_lang target_lang with
  | (Ok _, conn') =>
      if commit then
        if commit_fails w then (Raise OperationalError, conn')
        else (Ok tt, Sqlite.commit conn')
      else (Ok tt, conn')
  | (Raise e, conn') => (Raise e, conn')
  end.

(** ** Fuzzy retrieval *)

(** [unit_source] is a [str] or a [unicode]; a language filter is a single
    tag or a list of tags. *)
Inductive text_arg : Type :=
| StrArg (s : str)
| UnicodeArg (x : unicode).

Inductive langs_arg : Type :=
| LangTag (s : str)
| LangList (l : list str).

(** One suggestion: the dictionary with keys ['source'], ['target'],
    ['context'] and ['quality']. *)
Record match_result : Type := {
  m_source : str;
  m_target : str;
  m_context : str;
  m_quality : Q
}.

(** The [isinstance] normalisations at the head of [translate_unit]. *)
Definition encode_arg (a : text_arg) : str :=
  match a with
  | UnicodeArg x => encode_utf8 x
  | StrArg s => s
  end.

Definition join_langs (a : langs_arg) : str :=
  match a with
  | LangList l => join "," l
  | LangTag s => s
  end.

(** The SELECT of [translate_unit] with its four bound values: each
    language column is compared with the one value bound to its [IN (?)]. *)
Definition select_candidates (t : tables) (source_langs target_langs : str)
    (minlen maxlen : Z) : list (source_row * target_row) :=
  filter (fun row =>
            String.eqb (s_lang (fst row)) source_langs
            && String.eqb (t_lang (snd row)) target_langs
            && (minlen <=? s_length (fst row))
            && (s_length (fst row) <=? maxlen))
         (join_rows t).

(** The rows the query of [translate_unit] yields, i.e. the candidates that
    are handed to the comparer. *)
Definition candidates (self : TMDB) (conn : connection)
    (unit_source : text_arg) (source_langs target_langs : langs_arg)
  : result (list (source_row * target_row)) :=
  let unit_source := encode_arg unit_source in
  bind (min_levenshtein_length (len_str unit_source) (min_similarity self))
    (fun minlen =>
       bind (max_levenshtein_length (len_str unit_source)
                                    (min_similarity self) (max_length self))
         (fun maxlen =>
            Ok (select_candidates (working conn) (join_langs source_langs)
                                  (join_langs target_langs) minlen maxlen))).

(** [x.encode("utf-8")] on a column value that may be [None]. *)
Definition encode_column (x : option unicode) : result str :=
  match x with
  | Some v => Ok (encode_utf8 v)
  | None => Raise AttributeError
  end.

(** The body of the [for row in self.cursor] loop for one row: the record
    built from it, or an exception. *)
Definition build_result (self : TMDB) (unit_source : str)
    (row : source_row * target_row) : result match_result :=
  let src := encode_utf8 (s_text (fst row)) in
  let tgt := encode_utf8 (t_text (snd row)) in
  bind (encode_column (s_context (fst row)))
    (fun ctx =>
       Ok {| m_source := src; m_target := tgt; m_context := ctx;
             m_quality := comparer self unit_source src (min_similarity self) |}).

(** [result['quality'] >= self.min_similarity] *)
Definition good_enough (self : TMDB) (r : match_result) : bool :=
  Qle_bool (inject_Z (min_similarity self)) (m_quality r).

Fixpoint score_rows (self : TMDB) (unit_source : str)
    (rows : list (source_row * target_row)) : result (list match_result) :=
  match rows with
  | [] => Ok []
  | row :: rest =>
      bind (build_result self unit_source row)
        (fun r =>
           bind (score_rows self unit_source rest)
             (fun results =>
                Ok (if good_enough self r then r :: results else results)))
  end.

(** [results.sort(key=lambda match: match['quality'], reverse=True)]: a
    stable sort by decreasing quality.  A record goes in front of the first
    one that is not better than it, so equal records keep their order. *)
Fixpoint insert_by_quality (r : match_result) (l : list match_result)
  : list match_result :=
  match l with
  | [] => [r]
  | x :: rest =>
      if Qle_bool (m_quality x) (m_quality r) then r :: l
      else x :: insert_by_quality r rest
  end.

Fixpoint sort_by_quality (l : list match_result) : list match_result :=
  match l with
  | [] => []
  | r :: rest => insert_by_quality r (sort_by_quality rest)
  end.

Definition translate_unit (self : TMDB) (conn : connection)
    (unit_source : text_arg) (source_langs target_langs : langs_arg)
  : result (list match_result) :=
  bind (candidates self conn unit_source source_langs target_langs)
    (fun rows =>
       bind (score_rows self (encode_arg unit_source) rows)
         (fun results =>
            Ok (slice_to (max_candidates self) (sort_by_quality results)))).

(** The candidate rows as the specification words them: language columns
    tested for membership in the lists of tags, source length inside the
    window. *)
Definition tags_of (a : langs_arg) : list str :=
  match a with
  | LangList l => l
  | LangTag s => [s]
  end.

Definition spec_candidates (t : tables) (source_langs target_langs : list str)
    (minlen maxlen : Z) : list (source_row * target_row) :=
  filter (fun row =>
            existsb (String.eqb (s_lang (fst row))) source_langs
            && existsb (String.eqb (t_lang (snd row))) target_langs
            && (minlen <=? s_length (fst row))
            && (s_length (fst row) <=? maxlen))
         (join_rows t).

(** ** A comparer *)

(** Modelled from the spec: the comparer class
    ([translate.search.lshtein.LevenshteinComparer]) is not among the
    sources.  The specification gives its interface,
    [similarity(text_a, text_b, min_similarity) -> score in [0,100]], and
    describes the score as edit distance normalised by length; this is that
    score, 100 minus the distance as a percentage of the longer length. *)
Fixpoint levenshtein (a b : list ascii) {struct a} : nat :=
  match a with
  | [] => List.length b
  | x :: a' =>
      (fix inner (b : list ascii) : nat :=
         match b with
         | [] => List.length a
         | y :: b' =>
             if Ascii.eqb x y then levenshtein a' b'
             else S (Nat.min (levenshtein a' b)
                             (Nat.min (inner b') (levenshtein a' b')))
         end) b
  end.

Definition levenshtein_similarity : comparer_t :=
  fun a b _ =>
    let la := list_ascii_of_string a in
    let lb := list_ascii_of_string b in
    let longer := Nat.max (List.length la) (List.length lb) in
    match longer with
    | O => 0%Q
    | S _ =>
        (100 - inject_Z (100 * Z.of_nat (levenshtein la lb))
               / inject_Z (Z.of_nat longer))%Q
    end.

(** [TMDB(db_file)] with the default arguments. *)
Definition default_tmdb : TMDB :=
  {| max_candidates := 3; min_similarity := 75; max_length := 1000;
     comparer := levenshtein_similarity |}.

(** ** Auxiliary definitions for the proofs *)






(** The value of a finite double as a rational number. *)
Definition float_value (x : Float64.float) : Q :=
  match Float64.to_frac x with
  | Some (n, d) => n # Z.to_pos d
  | None => 0
  end.

(** A positive normal double: 53 significant bits, the exponent of the
    last bit between [elo] and [ehi]. *)
Definition normal (x : Float64.float) (elo ehi : Z) : Prop :=
  exists m e,
    x = S754_finite false m e /\ 2 ^ 52 <= Z.pos m < 2 ^ 53 /\ elo <= e <= ehi.



(** The quality order of the result list: [a] may stand before [b]. *)
Definition not_worse (a b : match_result) : Prop :=
  (m_quality b <= m_quality a)%Q.

(** Uniqueness keys of the two tables. *)
Definition source_key (r : source_row) : unicode * option unicode * str :=
  (s_text r, s_context r, s_lang r).

Definition target_key (r : target_row) : Z * unicode * str :=
  (t_sid r, t_text r, t_lang r).

(** No two rows of [targets] agree on [(sid, text, lang)]. *)
Definition targets_unique (t : tables) : Prop :=
  NoDup (map target_key (targets t)).

(** The number of target rows with a given key. *)
Definition count_targets (t : tables) (sid : Z) (text : unicode) (lang : str)
  : nat :=
  List.length (filter (target_collides sid text lang) (targets t)).

(** The number of source rows with a given key, NULL contexts compared as
    equal values. *)
Definition same_source_key (text : unicode) (context : option unicode)
    (lang : str) (r : source_row) : bool :=
  unicode_eqb (s_text r) text
  && match s_context r, context with
     | Some x, Some y => unicode_eqb x y
     | None, None => true
     | _, _ => false
     end
  && String.eqb (s_lang r) lang.

Definition count_sources (t : tables) (text : unicode)
    (context : option unicode) (lang : str) : nat :=
  List.length (filter (same_source_key text context lang) (sources t)).

(** A language tag with a comma in it. *)
Definition has_comma (s : str) : bool :=
  existsb (Ascii.eqb ",") (list_ascii_of_string s).

(** The languages [add_unit] settles on. *)
Definition resolve (own override : option str) : option str :=
  if truthy own then own else override.

(** ** Sample data *)

(** A unit [Hello world -> Bonjour le monde] that declares no language. *)
Definition hello_unit (context : option unicode) : translation_unit :=
  {| source := u "Hello world";
     target := u "Bonjour le monde";
     getcontext := context;
     getsourcelanguage := None;
     gettargetlanguage := None;
     istranslatable := true;
     istranslated := true |}.

(** A fresh database after one committed [add_unit] of that unit as
    English to French. *)
Definition hello_connection (context : option unicode) : connection :=
  snd (add_unit None 1200000000 empty_connection (hello_unit context)
                (Some "en") (Some "fr") true).

(** A world in which nothing fails and the clock stands still. *)
Definition calm : world :=
  {| fault_at := fun _ => None; clock := fun _ => 1200000000;
     commit_fails := false |}.

(** A world in which the storage fails when the unit at position 1 inserts
    its target. *)
Definition stormy : world :=
  {| fault_at := fun i => match i with
                          | 1%nat => Some InsertTarget
                          | _ => None
                          end;
     clock := fun _ => 1200000000;
     commit_fails := false |}.

Definition goodbye_unit : translation_unit :=
  {| source := u "Goodbye";
     target := u "Au revoir";
     getcontext := Some (u "");
     getsourcelanguage := None;
     gettargetlanguage := None;
     istranslatable := true;
     istranslated := true |}.

Definition two_unit_store : store :=
  {| units := [hello_unit (Some (u "")); goodbye_unit] |}.

(** Four units whose sources are close to [Hello world], stored in the
    order of increasing similarity to it. *)
Definition greeting (src tgt : string) : translation_unit :=
  {| source := u src;
     target := u tgt;
     getcontext := Some (u "");
     getsourcelanguage := None;
     gettargetlanguage := None;
     istranslatable := true;
     istranslated := true |}.

Definition greetings_store : store :=
  {| units := [greeting "Hallo world!" "Bonjour, monde !";
               greeting "Hello word" "Bonjour le mot";
               greeting "Hello worlds" "Bonjour les mondes";
               greeting "Hello world" "Bonjour le monde"] |}.

Definition greetings_connection : connection :=
  snd (add_store calm empty_connection greetings_store
                 (Some "en") (Some "fr") true).

(** ** Opening a database *)

(** The points of [init_database] at which the storage may fail:
    [executescript] first commits whatever the connection has pending and
    then runs the script; [commit()] follows. *)
Inductive init_statement : Type :=
| ScriptCommit
| Script
| InitCommit.

Definition init_statement_eqb (a b : init_statement) : bool :=
  match a, b with
  | ScriptCommit, ScriptCommit => true
  | Script, Script => true
  | InitCommit, InitCommit => true
  | _, _ => false
  end.

Definition init_fails (fault : option init_statement) (st : init_statement)
  : bool :=
  match fault with
  | Some f => init_statement_eqb f st
  | None => false
  end.

(** [self.cursor.executescript(script)].  Every statement of the script
    is a [CREATE ... IF NOT EXISTS]: it creates what is missing and leaves
    the rows of the tables alone. *)
Definition executescript (fault : option init_statement) (conn : connection)
  : result NoneType * connection :=
  if init_fails fault ScriptCommit then (Raise OperationalError, conn)
  else
    let conn := Sqlite.commit conn in
    if init_fails fault Script then (Raise OperationalError, conn)
    else (Ok tt, conn).

Definition init_database (fault : option init_statement) (conn : connection)
  : result NoneType * connection :=
  match executescript fault conn with
  | (Raise e, conn') => (Raise e, rollback conn')
  | (Ok _, conn') =>
      if init_fails fault InitCommit
      then (Raise OperationalError, rollback conn')
      else (Ok tt, Sqlite.commit conn')
  end.

(** The class attribute [_tm_dbs]: the connection object opened for each
    database file.  The object is shared by every instance made for that
    file, so the registry holds the one state each connection has. *)
Definition tm_dbs_t : Type := list (str * connection).

(** [_tm_dbs[db_file]] *)
Fixpoint getitem (_tm_dbs : tm_dbs_t) (db_file : str) : option connection :=
  match _tm_dbs with
  | [] => None
  | (k, c) :: rest =>
      if String.eqb k db_file then Some c else getitem rest db_file
  end.

(** [_tm_dbs[db_file] = conn], also used to record the new state of a
    connection that a method changed. *)
Fixpoint setitem (_tm_dbs : tm_dbs_t) (db_file : str) (conn : connection)
  : tm_dbs_t :=
  match _tm_dbs with
  | [] => [(db_file, conn)]
  | (k, c) :: rest =>
      if String.eqb k db_file then (k, conn) :: rest
      else (k, c) :: setitem rest db_file conn
  end.

(** [dbapi2.connect(db_file)]: a new connection shows what the file holds,
    with nothing pending.  A file that does not exist yet reads as empty
    tables. *)
Definition connect (disk : str -> tables) (db_file : str) : connection :=
  {| committed := disk db_file; working := disk db_file |}.

(** [TMDB.__init__].  [LevenshteinComparer] is the comparer class.  The
    connection of the new object is the registry's entry for [db_file],
    opened now when there is none yet; [init_database] runs on it and the
    registry records the state it leaves. *)
Definition __init__ (fault : option init_statement) (disk : str -> tables)
    (_tm_dbs : tm_dbs_t) (LevenshteinComparer : Z -> comparer_t)
    (db_file : str) (max_candidates min_similarity max_length : Z)
  : result TMDB * tm_dbs_t :=
  (* share connections to same database file between different instances *)
  let connection :=
    match getitem _tm_dbs db_file with
    | Some c => c
    | None => connect disk db_file
    end in
  match init_database fault connection with
  | (Raise e, connection') => (Raise e, setitem _tm_dbs db_file connection')
  | (Ok _, connection') =>
      (Ok {| max_candidates := max_candidates;
             min_similarity := min_similarity;
             max_length := max_length;
             comparer := LevenshteinComparer max_length |},
       setitem _tm_dbs db_file connection')
  end.

(** ** Further definitions for the proofs *)

(** A property of the tables that holds of what is committed and of what
    the open transaction sees. *)
Definition both (P : tables -> Prop) (conn : connection) : Prop :=
  P (committed conn) /\ P (working conn).

Definition has_context (r : source_row) : bool :=
  match s_context r with
  | Some _ => true
  | None => false
  end.

(** No two rows of [sources] that have a context agree on
    [(text, context, lang)]. *)
Definition sources_unique (t : tables) : Prop :=
  NoDup (map source_key (filter has_context (sources t))).

(** Every target row names the [sid] of a stored source row. *)
Definition targets_refer (t : tables) : Prop :=
  forall tr, In tr (targets t) ->
    exists s, In s (sources t) /\ s_sid s = t_sid tr.

(** The [length] columns hold the lengths of the [text] columns. *)
Definition lengths_stored (t : tables) : Prop :=
  (forall s, In s (sources t) -> s_length s = len_unicode (s_text s)) /\
  (forall tr, In tr (targets t) -> t_length tr = len_unicode (t_text tr)).

(** The rowids are distinct and none is beyond its table's counter. *)
Definition rowids_fresh (t : tables) : Prop :=
  NoDup (map s_sid (sources t)) /\
  (forall s, In s (sources t) -> s_sid s <= sources_seq t) /\
  NoDup (map t_tid (targets t)) /\
  (forall tr, In tr (targets t) -> t_tid tr <= targets_seq t).

Definition consistent (t : tables) : Prop :=
  sources_unique t /\ targets_unique t /\ targets_refer t /\
  lengths_stored t /\ rowids_fresh t.

(** The record that [translate_unit] builds from a row whose context is
    [c]. *)
Definition record_of (self : TMDB) (unit_source : str)
    (row : source_row * target_row) (c : unicode) : match_result :=
  {| m_source := encode_utf8 (s_text (fst row));
     m_target := encode_utf8 (t_text (snd row));
     m_context := encode_utf8 c;
     m_quality := comparer self unit_source (encode_utf8 (s_text (fst row)))
                           (min_similarity self) |}.

(** The world as the units from position [n] on meet it. *)
Definition shift (n : nat) (w : world) : world :=
  {| fault_at := fun i => fault_at w (n + i);
     clock := fun i => clock w (n + i);
     commit_fails := commit_fails w |}.

(** Whether [add_store] takes a unit: it is translatable and translated. *)
Definition taken (unit : translation_unit) : bool :=
  istranslatable unit && istranslated unit.

(** The rows that the two INSERT statements of [add_unit] write. *)
Definition source_row_of (unit : translation_unit) (lang : str) (sid : Z)
  : source_row :=
  {| s_sid := sid; s_text := source unit; s_context := getcontext unit;
     s_lang := lang; s_length := len_unicode (source unit) |}.

Definition target_row_of (unit : translation_unit) (lang : str)
    (tid sid now : Z) : target_row :=
  {| t_tid := tid; t_sid := sid; t_text := target unit; t_lang := lang;
     t_length := len_unicode (target unit); t_time := now |}.

Definition add_source (t : tables) (r : source_row) : tables :=
  {| sources := sources t ++ [r]; targets := targets t;
     sources_seq := s_sid r; targets_seq := targets_seq t |}.

Definition add_target (t : tables) (r : target_row) : tables :=
  {| sources := sources t; targets := targets t ++ [r];
     sources_seq := sources_seq t; targets_seq := t_tid r |}.

(** * Properties *)

(** ** Binary64 arithmetic: one rounding, one half unit in the last place *)

(** The lemmas of this part follow the standard library's executable model
    ([SpecFloat]) through [binary_round_aux]: shifting a mantissa to 53 bits
    keeps track of where the exact value lies, rounding to nearest moves it
    by at most half a unit, and so a product or quotient of two normal
    doubles carries a relative error of at most [2^-53]. *)

(** *** Binary digits *)



(** *** Shifting with a round bit and a sticky bit *)







(** *** Rounding to 53 bits *)





(** *** Values *)

Lemma Qpow2_pos (e : Z) : (0 < 2 ^ e)%Q.
Proof. apply Qpower_0_lt. reflexivity. Qed.

Lemma Qpow2_inject (k : Z) : 0 <= k -> (2 ^ k == inject_Z (2 ^ k))%Q.
Proof. intros Hk. rewrite (Zpower_Qpower 2 k Hk). reflexivity. Qed.


(** The value of a positive finite double is [m * 2^e]. *)
Lemma float_value_finite (m : positive) (e : Z) :
  (float_value (S754_finite false m e) == inject_Z (Z.pos m) * 2 ^ e)%Q.
Proof.
  unfold float_value, Float64.to_frac. destruct (0 <=? e) eqn:He.
  - apply Z.leb_le in He. rewrite (Qpow2_inject e He), <- inject_Z_mult.
    reflexivity.
  - apply Z.leb_gt in He.
    assert (Hp : 0 < 2 ^ (- e)) by (apply Z.pow_pos_nonneg; lia).
    rewrite Qmake_Qdiv, Z2Pos.id by assumption.
    replace e with (- (- e)) at 2 by lia.
    rewrite Qpower_opp, (Qpow2_inject (- e)) by lia. reflexivity.
Qed.

Lemma float_value_pos (x : Float64.float) (a b : Z) :
  normal x a b -> (0 < float_value x)%Q.
Proof.
  intros (m & e & -> & _ & _). rewrite float_value_finite.
  apply Qmult_lt_0_compat; [reflexivity|apply Qpow2_pos].
Qed.


(** *** The three operations on normal doubles *)







(** *** Rounding up and down *)

Lemma to_frac_pos (x : Float64.float) (n d : Z) :
  Float64.to_frac x = Some (n, d) -> 0 < d.
Proof.
  destruct x as [s | s | | s m e]; simpl; try discriminate.
  - intros H; inversion H; lia.
  - destruct (0 <=? e) eqn:He; intros H; inversion H; subst; [lia|].
    apply Z.leb_gt in He. apply Z.pow_pos_nonneg; lia.
Qed.





(** *** The error of the window *)





(** *** The window, for every length below [2^45] *)






(** ** The length window *)

Lemma ceil_le_of_lt (n d k : Z) : 0 < d -> n < k * d -> - (- n / d) <= k.
Proof.
  intros Hd Hk.
  assert (- k <= - n / d) by (apply Z.div_le_lower_bound; nia). lia.
Qed.

Lemma ceil_ge_of_ge (n d k : Z) : 0 < d -> k * d <= n -> k <= - (- n / d).
Proof.
  intros Hd Hk.
  assert (- n / d <= - k) by (apply Z.div_le_upper_bound; nia). lia.
Qed.

Lemma floor_ge_of_lt (n d k : Z) : 0 < d -> k * d < n -> k <= n / d.
Proof. intros Hd Hk. apply Z.div_le_lower_bound; nia. Qed.

Lemma floor_le_of_ge (n d k : Z) : 0 < d -> n <= k * d -> n / d <= k.
Proof. intros Hd Hk. apply Z.div_le_upper_bound; nia. Qed.

Lemma ceil_py_max (x : Float64.float) (k a : Z) :
  math_ceil (PyFloat x) = Ok a ->
  math_ceil (py_max (PyFloat x) (PyInt k)) = Ok (Z.max a k).
Proof.
  unfold py_max, py_lt, float_lt_int. cbn [math_ceil].
  destruct (Float64.to_frac x) as [[n d]|] eqn:Hf; [|discriminate].
  pose proof (to_frac_pos _ _ _ Hf) as Hd.
  intros H; inversion H; subst a; clear H.
  assert (Hb : (match x with
                | S754_infinity s => s
                | S754_nan => false
                | _ => n <? k * d
                end) = (n <? k * d)).
  { destruct x; simpl in Hf; try discriminate; reflexivity. }
  rewrite Hb.
  destruct (n <? k * d) eqn:Hk; cbn [math_ceil]; rewrite ?Hf; f_equal.
  - apply Z.ltb_lt in Hk. pose proof (ceil_le_of_lt n d k Hd Hk). lia.
  - apply Z.ltb_ge in Hk. pose proof (ceil_ge_of_ge n d k Hd Hk). lia.
Qed.

Lemma floor_py_min (x : Float64.float) (k b : Z) :
  math_floor (PyFloat x) = Ok b ->
  math_floor (py_min (PyFloat x) (PyInt k)) = Ok (Z.min b k).
Proof.
  unfold py_min, py_lt, int_lt_float. cbn [math_floor].
  destruct (Float64.to_frac x) as [[n d]|] eqn:Hf; [|discriminate].
  pose proof (to_frac_pos _ _ _ Hf) as Hd.
  intros H; inversion H; subst b; clear H.
  assert (Hb : (match x with
                | S754_infinity s => negb s
                | S754_nan => false
                | _ => k * d <? n
                end) = (k * d <? n)).
  { destruct x; simpl in Hf; try discriminate; reflexivity. }
  rewrite Hb.
  destruct (k * d <? n) eqn:Hk; cbn [math_floor]; rewrite ?Hf; f_equal.
  - apply Z.ltb_lt in Hk. pose proof (floor_ge_of_lt n d k Hd Hk). lia.
  - apply Z.ltb_ge in Hk. pose proof (floor_le_of_ge n d k Hd Hk). lia.
Qed.













(** A zero floor makes the upper bound fail outright. *)
Lemma max_levenshtein_length_zero_floor (L M : Z) :
  max_levenshtein_length L 0 M = Raise ZeroDivisionError.
Proof.
  unfold max_levenshtein_length.
  change (py_truediv (Float64.of_int 0) (Float64.of_int 100))
    with (@Ok Float64.float (S754_zero false)).
  cbn [bind]. reflexivity.
Qed.

(** ** Sorting and slicing *)

Lemma insert_by_quality_In (r x : match_result) (l : list match_result) :
  In x (insert_by_quality r l) <-> x = r \/ In x l.
Proof.
  induction l as [|y l IH]; simpl.
  - intuition.
  - destruct (Qle_bool (m_quality y) (m_quality r)); simpl; intuition.
Qed.

Lemma sort_by_quality_In (x : match_result) (l : list match_result) :
  In x (sort_by_quality l) <-> In x l.
Proof.
  induction l as [|y l IH]; simpl; [tauto|].
  rewrite insert_by_quality_In, IH. intuition.
Qed.

Lemma sort_by_quality_length (l : list match_result) :
  List.length (sort_by_quality l) = List.length l.
Proof.
  assert (Hins : forall r l', List.length (insert_by_quality r l')
                              = Datatypes.S (List.length l')).
  { intros r l'. induction l' as [|y l' IH]; simpl; [reflexivity|].
    destruct (Qle_bool (m_quality y) (m_quality r)); simpl; congruence. }
  induction l as [|y l IH]; simpl; [reflexivity|].
  rewrite Hins, IH. reflexivity.
Qed.

Lemma not_worse_trans (a b c : match_result) :
  not_worse a b -> not_worse b c -> not_worse a c.
Proof. unfold not_worse. intros H1 H2. eapply Qle_trans; eassumption. Qed.

Lemma insert_by_quality_sorted (r : match_result) (l : list match_result) :
  StronglySorted not_worse l ->
  StronglySorted not_worse (insert_by_quality r l).
Proof.
  induction 1 as [|y l Hl IH Hy]; simpl.
  - constructor; constructor.
  - destruct (Qle_bool (m_quality y) (m_quality r)) eqn:Hc.
    + apply Qle_bool_iff in Hc.
      constructor; [constructor; assumption|].
      constructor; [exact Hc|].
      rewrite Forall_forall in Hy |- *. intros z Hz.
      apply (not_worse_trans r y z); [exact Hc | apply Hy, Hz].
    + assert (Hlt : (m_quality r < m_quality y)%Q).
      { apply Qnot_le_lt. intros Hle. apply Qle_bool_iff in Hle. congruence. }
      constructor; [exact IH|].
      rewrite Forall_forall in Hy |- *. intros z Hz.
      apply insert_by_quality_In in Hz. destruct Hz as [-> | Hz].
      * apply Qlt_le_weak, Hlt.
      * apply Hy, Hz.
Qed.

Lemma sort_by_quality_sorted (l : list match_result) :
  StronglySorted not_worse (sort_by_quality l).
Proof.
  induction l as [|y l IH]; simpl; [constructor|].
  apply insert_by_quality_sorted, IH.
Qed.

Lemma firstn_In_inv {A : Type} (n : nat) (l : list A) (x : A) :
  In x (firstn n l) -> In x l.
Proof.
  revert l. induction n as [|n IH]; intros [|y l]; simpl; try tauto.
  intros [H|H]; [left; exact H | right; apply IH, H].
Qed.

Lemma firstn_sorted {A : Type} (R : A -> A -> Prop) (n : nat) (l : list A) :
  StronglySorted R l -> StronglySorted R (firstn n l).
Proof.
  intros H. revert n. induction H as [|y l Hl IH Hy]; intros [|n]; simpl;
    try constructor.
  - apply IH.
  - rewrite Forall_forall in Hy |- *. intros z Hz.
    apply Hy. eapply firstn_In_inv, Hz.
Qed.

Lemma slice_to_In {A : Type} (n : Z) (l : list A) (x : A) :
  In x (slice_to n l) -> In x l.
Proof. unfold slice_to. destruct (0 <=? n); apply firstn_In_inv. Qed.

Lemma slice_to_sorted {A : Type} (R : A -> A -> Prop) (n : Z) (l : list A) :
  StronglySorted R l -> StronglySorted R (slice_to n l).
Proof. unfold slice_to. destruct (0 <=? n); apply firstn_sorted. Qed.

Lemma slice_to_length {A : Type} (n : Z) (l : list A) :
  0 <= n -> Z.of_nat (List.length (slice_to n l)) <= n.
Proof.
  intros Hn. unfold slice_to.
  destruct (0 <=? n) eqn:H; [|apply Z.leb_gt in H; lia].
  rewrite length_firstn. lia.
Qed.

(** ** Scoring *)

Lemma build_result_context (self : TMDB) (q : str)
    (row : source_row * target_row) :
  s_context (fst row) = None ->
  build_result self q row = Raise AttributeError.
Proof. unfold build_result. intros ->. reflexivity. Qed.

Lemma build_result_ok (self : TMDB) (q : str)
    (row : source_row * target_row) (r : match_result) :
  build_result self q row = Ok r ->
  exists c, s_context (fst row) = Some c /\
    r = {| m_source := encode_utf8 (s_text (fst row));
           m_target := encode_utf8 (t_text (snd row));
           m_context := encode_utf8 c;
           m_quality := comparer self q (encode_utf8 (s_text (fst row)))
                                  (min_similarity self) |}.
Proof.
  unfold build_result.
  destruct (s_context (fst row)) as [c|]; simpl; [|discriminate].
  intros H. inversion H. exists c. split; reflexivity.
Qed.

Lemma score_rows_raises (self : TMDB) (q : str)
    (rows : list (source_row * target_row)) :
  (exists row, In row rows /\ s_context (fst row) = None) ->
  score_rows self q rows = Raise AttributeError.
Proof.
  induction rows as [|row rows IH]; intros (row' & Hin & Hc).
  - destruct Hin.
  - simpl.
    destruct (build_result self q row) as [r|e] eqn:Hb.
    + destruct Hin as [-> | Hin].
      * rewrite (build_result_context _ _ _ Hc) in Hb. discriminate.
      * cbn [bind]. rewrite IH; [reflexivity|]. exists row'. tauto.
    + cbn [bind]. unfold build_result in Hb.
      destruct (s_context (fst row)); simpl in Hb; [discriminate|].
      inversion Hb. reflexivity.
Qed.

Lemma score_rows_ok (self : TMDB) (q : str)
    (rows : list (source_row * target_row)) (results : list match_result) :
  score_rows self q rows = Ok results ->
  (forall row, In row rows -> s_context (fst row) <> None) /\
  (forall r, In r results ->
     good_enough self r = true /\
     exists row, In row rows /\ build_result self q row = Ok r).
Proof.
  revert results. induction rows as [|row rows IH]; intros results; simpl.
  - intros H. inversion H. split; intros ? [].
  - destruct (build_result self q row) as [r|e] eqn:Hb; cbn [bind];
      [|discriminate].
    destruct (score_rows self q rows) as [rs|e] eqn:Hs; cbn [bind];
      [|discriminate].
    intros H. inversion H; subst results; clear H.
    destruct (IH rs eq_refl) as [IH1 IH2]. split.
    + intros row' [<- | Hin].
      * destruct (build_result_ok _ _ _ _ Hb) as (c & Hc & _). congruence.
      * apply IH1, Hin.
    + intros r' Hr'.
      assert (Hcase : (r' = r /\ good_enough self r = true) \/ In r' rs).
      { destruct (good_enough self r) eqn:Hg; [|right; exact Hr'].
        destruct Hr' as [<- | Hr']; [left; split; reflexivity | right; exact Hr']. }
      destruct Hcase as [[-> Hg] | Hin].
      * split; [exact Hg|]. exists row. split; [left; reflexivity | exact Hb].
      * destruct (IH2 r' Hin) as [Hg (row' & Hin' & Hb')].
        split; [exact Hg|]. exists row'. split; [right; exact Hin' | exact Hb'].
Qed.

(** What a normal return of [translate_unit] is made of. *)
Lemma translate_unit_ok (self : TMDB) (conn : connection) (q : text_arg)
    (sl tl : langs_arg) (results : list match_result) :
  translate_unit self conn q sl tl = Ok results ->
  exists rows scored,
    candidates self conn q sl tl = Ok rows /\
    score_rows self (encode_arg q) rows = Ok scored /\
    results = slice_to (max_candidates self) (sort_by_quality scored).
Proof.
  intros H. unfold translate_unit in H.
  destruct (candidates self conn q sl tl) as [rows|e] eqn:Hc;
    cbn [bind] in H; [|discriminate].
  destruct (score_rows self (encode_arg q) rows) as [scored|e] eqn:Hs;
    cbn [bind] in H; [|discriminate].
  inversion H. exists rows, scored.
  split; [reflexivity|]. split; [exact Hs | reflexivity].
Qed.

(** ** The comparer model *)

Lemma levenshtein_bound (a b : list ascii) :
  (levenshtein a b <= Nat.max (List.length a) (List.length b))%nat.
Proof.
  revert b. induction a as [|x a IH]; intros b.
  - simpl. lia.
  - induction b as [|y b IHb].
    + simpl. lia.
    + cbn [levenshtein List.length] in *.
      destruct (Ascii.eqb x y).
      * specialize (IH b). lia.
      * specialize (IH b). lia.
Qed.

Lemma levenshtein_refl (a : list ascii) : levenshtein a a = 0%nat.
Proof.
  induction a as [|x a IH]; [reflexivity|].
  cbn [levenshtein]. rewrite Ascii.eqb_refl. exact IH.
Qed.

Lemma levenshtein_similarity_range (a b : str) (s : Z) :
  (0 <= levenshtein_similarity a b s <= 100)%Q.
Proof.
  unfold levenshtein_similarity.
  pose proof (levenshtein_bound (list_ascii_of_string a)
                                (list_ascii_of_string b)) as Hb.
  destruct (Nat.max (List.length (list_ascii_of_string a))
                    (List.length (list_ascii_of_string b))) as [|n] eqn:Hn.
  - split; discriminate.
  - set (d := levenshtein (list_ascii_of_string a) (list_ascii_of_string b))
      in *.
    unfold Qle, Qminus, Qplus, Qopp, Qdiv, Qmult, Qinv, inject_Z.
    cbn [Qnum Qden]. rewrite Nat2Z.inj_succ.
    destruct (Z.succ (Z.of_nat n)) as [|p|p] eqn:Hp; try lia.
    cbn [Qnum Qden]. split; nia.
Qed.

(** ** Retrieval: the returned records *)

(** C5: when the comparer keeps to its interface (a score between 0 and
    100), every record [translate_unit] returns has a quality of at least
    [min_similarity] and at most 100. *)
Theorem translate_unit_quality_bounds (self : TMDB) (conn : connection)
    (q : text_arg) (sl tl : langs_arg) (results : list match_result) :
  (forall a b s, (0 <= comparer self a b s <= 100)%Q) ->
  translate_unit self conn q sl tl = Ok results ->
  Forall (fun r =>
            (inject_Z (min_similarity self) <= m_quality r <= 100)%Q)
         results.
Proof.
  intros Hcmp H.
  destruct (translate_unit_ok _ _ _ _ _ _ H) as (rows & scored & _ & Hs & ->).
  destruct (score_rows_ok _ _ _ _ Hs) as [_ Hgood].
  apply Forall_forall. intros r Hr.
  apply slice_to_In in Hr. apply (proj1 (sort_by_quality_In _ _)) in Hr.
  destruct (Hgood r Hr) as [Hg (row & _ & Hb)].
  split.
  - apply Qle_bool_iff. exact Hg.
  - destruct (build_result_ok _ _ _ _ Hb) as (c & _ & ->). apply Hcmp.
Qed.

Lemma translate_unit_quality_bounds_witness :
  Forall (fun r =>
            (inject_Z (min_similarity default_tmdb) <= m_quality r <= 100)%Q)
         [{| m_source := "Hello world"; m_target := "Bonjour le monde";
             m_context := ""; m_quality := 1100 # 11 |}].
Proof.
  apply (translate_unit_quality_bounds default_tmdb
           (hello_connection (Some (u ""))) (UnicodeArg (u "Hello world"))
           (LangList ["en"]) (LangList ["fr"])).
  - exact levenshtein_similarity_range.
  - vm_compute. reflexivity.
Defined.

(** C6, as stated, fails: [max_candidates] may be negative, and then
    [results[:max_candidates]] drops records from the end instead of
    capping.  With a cap of -1 and four stored sources close to the query,
    three records come back, more than the cap. *)
Lemma translate_unit_negative_cap_fails :
  ~ (forall (self : TMDB) (conn : connection) (q : text_arg)
            (sl tl : langs_arg) (results : list match_result),
        translate_unit self conn q sl tl = Ok results ->
        Z.of_nat (List.length results) <= max_candidates self /\
        StronglySorted not_worse results).
Proof.
  intros H.
  destruct (translate_unit
              {| max_candidates := -1; min_similarity := 75;
                 max_length := 1000; comparer := levenshtein_similarity |}
              greetings_connection (StrArg "Hello world")
              (LangTag "en") (LangTag "fr")) as [results|e] eqn:E.
  - destruct (H _ _ _ _ _ _ E) as [Hlen _].
    vm_compute in E. inversion E; subst results.
    vm_compute in Hlen. apply Hlen. reflexivity.
  - vm_compute in E. discriminate E.
Qed.

(** C6, amended: the records [translate_unit] returns are in order of
    non-increasing quality, and when [max_candidates] is not negative
    there are at most [max_candidates] of them. *)
Theorem translate_unit_capped_sorted (self : TMDB) (conn : connection)
    (q : text_arg) (sl tl : langs_arg) (results : list match_result) :
  translate_unit self conn q sl tl = Ok results ->
  (0 <= max_candidates self ->
   Z.of_nat (List.length results) <= max_candidates self) /\
  StronglySorted not_worse results.
Proof.
  intros H.
  destruct (translate_unit_ok _ _ _ _ _ _ H) as (rows & scored & _ & _ & ->).
  split.
  - apply slice_to_length.
  - apply slice_to_sorted, sort_by_quality_sorted.
Qed.

(** Four sources reach the floor for the query [Hello world]; they were
    stored worst first, and the three best come back, best first. *)
Lemma translate_unit_capped_sorted_witness :
  exists results,
    translate_unit default_tmdb greetings_connection (StrArg "Hello world")
                   (LangTag "en") (LangTag "fr") = Ok results /\
    map m_source results = ["Hello world"; "Hello worlds"; "Hello word"] /\
    (0 <= max_candidates default_tmdb ->
     Z.of_nat (List.length results) <= max_candidates default_tmdb) /\
    StronglySorted not_worse results.
Proof.
  eexists. split; [vm_compute; reflexivity|].
  split; [reflexivity|].
  apply (translate_unit_capped_sorted default_tmdb greetings_connection
           (StrArg "Hello world") (LangTag "en") (LangTag "fr")).
  vm_compute. reflexivity.
Defined.

(** C10: once the query has produced its candidate rows, a single row with
    a NULL context makes [translate_unit] raise (AttributeError, from
    [row[2].encode]); so a normal return means that no candidate row had a
    NULL context. *)
Theorem translate_unit_null_context (self : TMDB) (conn : connection)
    (q : text_arg) (sl tl : langs_arg)
    (rows : list (source_row * target_row)) :
  candidates self conn q sl tl = Ok rows ->
  ((exists row, In row rows /\ s_context (fst row) = None) ->
   translate_unit self conn q sl tl = Raise AttributeError) /\
  (forall results,
     translate_unit self conn q sl tl = Ok results ->
     forall row, In row rows -> s_context (fst row) <> None).
Proof.
  intros Hc. split.
  - intros Hnull. unfold translate_unit. rewrite Hc. cbn [bind].
    rewrite (score_rows_raises _ _ _ Hnull). reflexivity.
  - intros results H.
    destruct (translate_unit_ok _ _ _ _ _ _ H) as (rows' & scored & Hc' & Hs & _).
    rewrite Hc in Hc'. inversion Hc'; subst rows'.
    apply (score_rows_ok _ _ _ _ Hs).
Qed.

Lemma translate_unit_null_context_witness :
  translate_unit default_tmdb (hello_connection None)
                 (UnicodeArg (u "Hello world")) (LangList ["en"])
                 (LangList ["fr"])
  = Raise AttributeError.
Proof.
  refine (proj1 (translate_unit_null_context default_tmdb
                   (hello_connection None) (UnicodeArg (u "Hello world"))
                   (LangList ["en"]) (LangList ["fr"])
                   (select_candidates (working (hello_connection None))
                                      "en" "fr" 9 14) _) _).
  - vm_compute. reflexivity.
  - eexists. split; [left; reflexivity | reflexivity].
Defined.

(** ** Insertion: language resolution *)

(** C4: when the source language (or the target language) is undefined
    after resolution, [add_unit] raises a LanguageError naming that side
    and returns the connection exactly as it was. *)
Theorem add_unit_undefined_language (fault : option statement) (now : Z)
    (conn : connection) (unit : translation_unit)
    (sl tl : option str) (commit : bool) :
  truthy (resolve (getsourcelanguage unit) sl) = false \/
  truthy (resolve (gettargetlanguage unit) tl) = false ->
  exists side,
    add_unit fault now conn unit sl tl commit
    = (Raise (LanguageError ("undefined " ++ side ++ " language")), conn) /\
    ((side = "source" /\
      truthy (resolve (getsourcelanguage unit) sl) = false) \/
     (side = "target" /\
      truthy (resolve (gettargetlanguage unit) tl) = false)).
Proof.
  intros H. unfold add_unit. fold (resolve (getsourcelanguage unit) sl).
  fold (resolve (gettargetlanguage unit) tl).
  destruct (truthy (resolve (getsourcelanguage unit) sl)) eqn:Hs.
  - destruct H as [H|H]; [discriminate|]. rewrite H. cbn [negb].
    exists "target". split; [reflexivity | right; split; reflexivity].
  - cbn [negb]. exists "source".
    split; [reflexivity | left; split; reflexivity].
Qed.

Lemma add_unit_undefined_language_witness :
  exists side,
    add_unit None 0 (hello_connection None) (hello_unit None)
             None (Some "fr") true
    = (Raise (LanguageError ("undefined " ++ side ++ " language")),
       hello_connection None) /\
    ((side = "source" /\
      truthy (resolve (getsourcelanguage (hello_unit None)) None) = false) \/
     (side = "target" /\
      truthy (resolve (gettargetlanguage (hello_unit None)) (Some "fr"))
      = false)).
Proof.
  apply (add_unit_undefined_language None 0 (hello_connection None)
           (hello_unit None) None (Some "fr") true).
  left. reflexivity.
Defined.

(** ** Insertion: what is committed *)

Lemma add_unit_try_keeps_committed (fault : option statement) (now : Z)
    (conn : connection) (unit : translation_unit) (s t : str) :
  committed (snd (add_unit_try fault now conn unit s t false))
  = committed conn.
Proof.
  unfold add_unit_try.
  destruct (source_step fault (working conn) unit s) as [[sid t1]|e];
    [|reflexivity].
  destruct (target_step fault now t1 sid unit t) as [t2|e]; reflexivity.
Qed.

Lemma add_unit_keeps_committed (fault : option statement) (now : Z)
    (conn : connection) (unit : translation_unit) (sl tl : option str) :
  committed (snd (add_unit fault now conn unit sl tl false))
  = committed conn.
Proof.
  unfold add_unit.
  destruct (negb (truthy _)); [reflexivity|].
  destruct (negb (truthy _)); [reflexivity|].
  match goal with
  | |- context [add_unit_try ?f ?n ?c ?u ?s ?t false] =>
      pose proof (add_unit_try_keeps_committed f n c u s t) as H;
      destruct (add_unit_try f n c u s t false) as [[r|e] conn']
  end; exact H.
Qed.

Lemma add_store_loop_keeps_committed (w : world) (us : list translation_unit)
    (sl tl : option str) :
  forall (i : nat) (conn : connection),
    committed (snd (add_store_loop w i conn us sl tl)) = committed conn.
Proof.
  induction us as [|unit us IH]; intros i conn; simpl; [reflexivity|].
  destruct (istranslatable unit && istranslated unit); [|apply IH].
  pose proof (add_unit_keeps_committed (fault_at w i) (clock w i) conn unit
                                       sl tl) as H.
  destruct (add_unit (fault_at w i) (clock w i) conn unit sl tl false)
    as [[r|e] conn'].
  - rewrite IH. exact H.
  - exact H.
Qed.

(** C3: [add_store] with [commit=True] either returns normally, and then
    everything the transaction holds is committed, or raises, and then the
    committed database is what it was before the call: no row inserted for
    any unit of the document has been committed. *)
Theorem add_store_all_or_nothing (w : world) (conn conn' : connection)
    (store : store) (sl tl : option str) (r : result NoneType) :
  add_store w conn store sl tl true = (r, conn') ->
  match r with
  | Ok _ => committed conn' = working conn'
  | Raise _ => committed conn' = committed conn
  end.
Proof.
  unfold add_store.
  pose proof (add_store_loop_keeps_committed w (units store) sl tl 0%nat conn)
    as H.
  destruct (add_store_loop w 0 conn (units store) sl tl) as [[x|e] c].
  - destruct (commit_fails w); intros E; inversion E; subst.
    + exact H.
    + reflexivity.
  - intros E; inversion E; subst. exact H.
Qed.

Lemma add_store_all_or_nothing_witness :
  committed (snd (add_store stormy empty_connection two_unit_store
                            (Some "en") (Some "fr") true))
  = committed empty_connection.
Proof.
  apply (add_store_all_or_nothing stormy empty_connection _ two_unit_store
           (Some "en") (Some "fr") (Raise OperationalError)).
  vm_compute. reflexivity.
Defined.

(** ** Insertion: the uniqueness indices *)

Lemma unicode_eqb_eq (a b : unicode) : unicode_eqb a b = true <-> a = b.
Proof.
  unfold unicode_eqb. destruct (list_eq_dec N.eq_dec a b); split;
    congruence.
Qed.

Lemma unicode_eqb_refl (a : unicode) : unicode_eqb a a = true.
Proof. apply unicode_eqb_eq. reflexivity. Qed.

Lemma target_collides_key (sid : Z) (text : unicode) (lang : str)
    (r : target_row) :
  target_collides sid text lang r = true <-> target_key r = (sid, text, lang).
Proof.
  unfold target_collides, target_key.
  rewrite !andb_true_iff, Z.eqb_eq, unicode_eqb_eq, String.eqb_eq.
  split.
  - intros [[-> ->] ->]. reflexivity.
  - intros H. inversion H. auto.
Qed.

Lemma source_collides_null (text : unicode) (lang : str) (r : source_row) :
  source_collides text None lang r = false.
Proof.
  unfold source_collides, sql_eq_nullable.
  destruct (s_context r); rewrite andb_false_r; reflexivity.
Qed.

Lemma existsb_false_all {A : Type} (p : A -> bool) (l : list A) :
  (forall x, p x = false) -> existsb p l = false.
Proof.
  intros H. induction l as [|x l IH]; simpl; [reflexivity|].
  rewrite H, IH. reflexivity.
Qed.

(** With a key that at most one row carries, a row that carries it is
    counted once. *)
Lemma count_unique {A K : Type} (key : A -> K) (p : A -> bool) (k : K)
    (l : list A) :
  (forall x, p x = true <-> key x = k) ->
  NoDup (map key l) ->
  existsb p l = true ->
  List.length (filter p l) = 1%nat.
Proof.
  intros Hp. induction l as [|x l IH]; simpl; [discriminate|].
  intros Hnd Hex. inversion Hnd as [|? ? Hnotin Hnd']; subst.
  destruct (p x) eqn:Hx.
  - simpl. f_equal.
    assert (Hnone : forall y, In y l -> p y = false).
    { intros y Hy. destruct (p y) eqn:Hpy; [|reflexivity].
      exfalso. apply Hnotin.
      apply Hp in Hx. apply Hp in Hpy. rewrite Hx, <- Hpy.
      apply in_map, Hy. }
    clear -Hnone. induction l as [|y l IH]; simpl; [reflexivity|].
    rewrite (Hnone y (or_introl eq_refl)). apply IH.
    intros z Hz. apply Hnone. right. exact Hz.
  - simpl in Hex. apply IH; assumption.
Qed.

Lemma source_step_targets (fault : option statement) (t0 t1 : tables)
    (unit : translation_unit) (s : str) (sid : Z) :
  source_step fault t0 unit s = Ok (sid, t1) -> targets t1 = targets t0.
Proof.
  unfold source_step, insert_source.
  destruct (fails fault InsertSource); [discriminate|].
  destruct (existsb _ (sources t0)).
  - destruct (fails fault SelectSid); [discriminate|].
    destruct (select_sid _ _ _ _); [|discriminate].
    intros H; inversion H; reflexivity.
  - intros H; inversion H; reflexivity.
Qed.

(** The languages [add_unit] binds once both passed the truth test. *)
Lemma add_unit_resolved (fault : option statement) (now : Z)
    (conn : connection) (unit : translation_unit) (sl tl : option str)
    (commit : bool) :
  truthy (resolve (getsourcelanguage unit) sl) = true ->
  truthy (resolve (gettargetlanguage unit) tl) = true ->
  add_unit fault now conn unit sl tl commit
  = match add_unit_try fault now conn unit
            (lang_value (resolve (getsourcelanguage unit) sl))
            (lang_value (resolve (gettargetlanguage unit) tl)) commit with
    | (Ok r, conn') => (Ok r, conn')
    | (Raise e, conn') => (Raise e, if commit then rollback conn' else conn')
    end.
Proof.
  intros Hs Ht. unfold add_unit.
  fold (resolve (getsourcelanguage unit) sl).
  fold (resolve (gettargetlanguage unit) tl).
  rewrite Hs, Ht. reflexivity.
Qed.

(** C8: when the target row that [add_unit] is about to insert for the
    owning [sid] is already there, the call returns normally and the
    tables are what the source step left: no second row is written, and
    with the index intact that [(sid, text, lang)] is held by exactly one
    row. *)
Theorem add_unit_duplicate_target (now : Z) (conn : connection)
    (unit : translation_unit) (sl tl : option str) (commit : bool)
    (sid : Z) (t1 : tables) :
  truthy (resolve (getsourcelanguage unit) sl) = true ->
  truthy (resolve (gettargetlanguage unit) tl) = true ->
  source_step None (working conn) unit
              (lang_value (resolve (getsourcelanguage unit) sl))
  = Ok (sid, t1) ->
  existsb (target_collides sid (target unit)
             (lang_value (resolve (gettargetlanguage unit) tl)))
          (targets t1) = true ->
  targets_unique (working conn) ->
  exists conn',
    add_unit None now conn unit sl tl commit = (Ok tt, conn') /\
    working conn' = t1 /\
    targets (working conn') = targets (working conn) /\
    count_targets (working conn') sid (target unit)
      (lang_value (resolve (gettargetlanguage unit) tl)) = 1%nat.
Proof.
  intros Hs Ht Hstep Hex Huniq.
  rewrite (add_unit_resolved None now conn unit sl tl commit Hs Ht).
  unfold add_unit_try. rewrite Hstep.
  unfold target_step, insert_target. cbn [fails]. rewrite Hex.
  pose proof (source_step_targets _ _ _ _ _ _ Hstep) as Htg.
  assert (Hcount : count_targets t1 sid (target unit)
                     (lang_value (resolve (gettargetlanguage unit) tl))
                   = 1%nat).
  { unfold count_targets.
    apply (count_unique target_key _ (sid, target unit,
             lang_value (resolve (gettargetlanguage unit) tl))).
    - intros x. apply target_collides_key.
    - rewrite Htg. exact Huniq.
    - exact Hex. }
  destruct commit; cbn [fails]; eexists; (split; [reflexivity|]);
    cbn [working Sqlite.commit with_working];
    (split; [reflexivity|]); split; assumption.
Qed.

Lemma add_unit_duplicate_target_witness :
  exists conn',
    add_unit None 1200000001 (hello_connection (Some (u "")))
             (hello_unit (Some (u ""))) (Some "en") (Some "fr") true
    = (Ok tt, conn') /\
    working conn' = working (hello_connection (Some (u ""))) /\
    targets (working conn') = targets (working (hello_connection (Some (u "")))) /\
    count_targets (working conn') 1 (target (hello_unit (Some (u ""))))
      (lang_value (resolve (gettargetlanguage (hello_unit (Some (u ""))))
                           (Some "fr"))) = 1%nat.
Proof.
  apply (add_unit_duplicate_target 1200000001 (hello_connection (Some (u "")))
           (hello_unit (Some (u ""))) (Some "en") (Some "fr") true 1
           (working (hello_connection (Some (u ""))))).
  - reflexivity.
  - reflexivity.
  - vm_compute. reflexivity.
  - vm_compute. reflexivity.
  - unfold targets_unique. vm_compute.
    constructor; [intros [] | constructor].
Defined.

(** ** Insertion: sources with a NULL context *)

Lemma filter_app_one_length {A : Type} (p : A -> bool) (l : list A) (x : A) :
  p x = true ->
  List.length (filter p (l ++ [x])) = Datatypes.S (List.length (filter p l)).
Proof.
  intros Hx. rewrite filter_app, length_app. simpl. rewrite Hx. simpl. lia.
Qed.

Lemma same_source_key_refl (text : unicode) (context : option unicode)
    (lang : str) (sid len : Z) :
  same_source_key text context lang
    {| s_sid := sid; s_text := text; s_context := context; s_lang := lang;
       s_length := len |} = true.
Proof.
  unfold same_source_key. cbn [s_text s_context s_lang].
  rewrite unicode_eqb_refl, String.eqb_refl.
  destruct context as [c|]; [rewrite unicode_eqb_refl|]; reflexivity.
Qed.

Lemma target_step_sources (fault : option statement) (now : Z) (t1 t2 : tables)
    (sid : Z) (unit : translation_unit) (tlang : str) :
  target_step fault now t1 sid unit tlang = Ok t2 -> sources t2 = sources t1.
Proof.
  unfold target_step, insert_target.
  destruct (fails fault InsertTarget); [discriminate|].
  destruct (existsb _ (targets t1)); intros H; inversion H; reflexivity.
Qed.

Lemma target_step_no_fault (now : Z) (t1 : tables) (sid : Z)
    (unit : translation_unit) (tlang : str) :
  exists t2, target_step None now t1 sid unit tlang = Ok t2.
Proof.
  unfold target_step, insert_target. cbn [fails].
  destruct (existsb _ (targets t1)); eexists; reflexivity.
Qed.

(** C2 (what the code does): a unit without context is never recognised
    as already stored.  Each [add_unit] of it returns normally and appends
    one more source row with the same [(text, NULL, lang)] triple, so a
    second call with the same unit leaves two such rows. *)
Theorem add_unit_null_context_adds_row (now : Z) (conn : connection)
    (unit : translation_unit) (sl tl : option str) (commit : bool) :
  truthy (resolve (getsourcelanguage unit) sl) = true ->
  truthy (resolve (gettargetlanguage unit) tl) = true ->
  getcontext unit = None ->
  exists conn',
    add_unit None now conn unit sl tl commit = (Ok tt, conn') /\
    count_sources (working conn') (source unit) None
                  (lang_value (resolve (getsourcelanguage unit) sl))
    = Datatypes.S
        (count_sources (working conn) (source unit) None
                       (lang_value (resolve (getsourcelanguage unit) sl))).
Proof.
  intros Hs Ht Hc.
  rewrite (add_unit_resolved None now conn unit sl tl commit Hs Ht).
  unfold add_unit_try, source_step, insert_source. cbn [fails]. rewrite Hc.
  rewrite (existsb_false_all _ _ (source_collides_null _ _)).
  match goal with
  | |- context [target_step None now ?t1 ?sid unit ?l] =>
      destruct (target_step_no_fault now t1 sid unit l) as [t2 H2];
      rewrite H2; pose proof (target_step_sources _ _ _ _ _ _ _ H2) as Hsrc
  end.
  cbn [sources] in Hsrc.
  assert (Hcount :
    count_sources t2 (source unit) None
                  (lang_value (resolve (getsourcelanguage unit) sl))
    = Datatypes.S
        (count_sources (working conn) (source unit) None
                       (lang_value (resolve (getsourcelanguage unit) sl)))).
  { unfold count_sources. rewrite Hsrc.
    apply filter_app_one_length, same_source_key_refl. }
  destruct commit; eexists; (split; [reflexivity|]);
    cbn [working Sqlite.commit with_working]; exact Hcount.
Qed.

Lemma add_unit_null_context_adds_row_witness :
  exists conn',
    add_unit None 1200000001 (hello_connection None) (hello_unit None)
             (Some "en") (Some "fr") true = (Ok tt, conn') /\
    count_sources (working conn') (u "Hello world") None "en" = 2%nat.
Proof.
  exact (add_unit_null_context_adds_row 1200000001 (hello_connection None)
           (hello_unit None) (Some "en") (Some "fr") true
           eq_refl eq_refl eq_refl).
Defined.

(** C2, as stated, fails: after two identical calls for a unit without
    context the table holds two source rows with one triple. *)
Lemma sources_unique_null_context_fails :
  ~ (forall (unit : translation_unit) (conn1 conn2 : connection),
       add_unit None 1200000000 empty_connection unit (Some "en") (Some "fr")
                true = (Ok tt, conn1) ->
       add_unit None 1200000001 conn1 unit (Some "en") (Some "fr") true
       = (Ok tt, conn2) ->
       count_sources (working conn2) (source unit) (getcontext unit) "en"
       = 1%nat).
Proof.
  intros H.
  specialize (H (hello_unit None) (hello_connection None)
                (snd (add_unit None 1200000001 (hello_connection None)
                               (hello_unit None) (Some "en") (Some "fr") true))
                eq_refl eq_refl).
  vm_compute in H. discriminate H.
Qed.

(** ** Retrieval: the language filter *)

Lemma list_ascii_of_string_app (a b : string) :
  list_ascii_of_string (a ++ b)
  = (list_ascii_of_string a ++ list_ascii_of_string b)%list.
Proof.
  induction a as [|c a IH]; simpl; [reflexivity | rewrite IH; reflexivity].
Qed.

Lemma has_comma_join (a b : str) (rest : list str) :
  has_comma (join "," (a :: b :: rest)) = true.
Proof.
  change (join "," (a :: b :: rest)) with (a ++ "," ++ join "," (b :: rest)).
  unfold has_comma. rewrite !list_ascii_of_string_app, !existsb_app.
  simpl. rewrite orb_true_r. reflexivity.
Qed.

Lemma join_rows_fst (t : tables) (row : source_row * target_row) :
  In row (join_rows t) -> In (fst row) (sources t).
Proof.
  unfold join_rows. rewrite in_flat_map. intros (s & Hs & Hin).
  apply in_map_iff in Hin. destruct Hin as (tr & <- & _). exact Hs.
Qed.

Lemma join_rows_snd (t : tables) (row : source_row * target_row) :
  In row (join_rows t) -> In (snd row) (targets t).
Proof.
  unfold join_rows. rewrite in_flat_map. intros (s & Hs & Hin).
  apply in_map_iff in Hin. destruct Hin as (tr & <- & Hf).
  apply filter_In in Hf. apply Hf.
Qed.

Lemma filter_none {A : Type} (p : A -> bool) (l : list A) :
  (forall x, In x l -> p x = false) -> filter p l = [].
Proof.
  induction l as [|x l IH]; intros H; simpl; [reflexivity|].
  rewrite (H x (or_introl eq_refl)). apply IH.
  intros y Hy. apply H. right. exact Hy.
Qed.

Lemma candidates_ok (self : TMDB) (conn : connection) (q : text_arg)
    (sl tl : langs_arg) (rows : list (source_row * target_row)) :
  candidates self conn q sl tl = Ok rows ->
  exists lo hi,
    min_levenshtein_length (len_str (encode_arg q)) (min_similarity self)
    = Ok lo /\
    max_levenshtein_length (len_str (encode_arg q)) (min_similarity self)
                           (max_length self) = Ok hi /\
    rows = select_candidates (working conn) (join_langs sl) (join_langs tl)
                             lo hi.
Proof.
  unfold candidates.
  destruct (min_levenshtein_length _ _) as [lo|e]; cbn [bind]; [|discriminate].
  destruct (max_levenshtein_length _ _ _) as [hi|e]; cbn [bind];
    [|discriminate].
  intros H; inversion H. exists lo, hi. auto.
Qed.

(** C1 (what the code does): a list of two or more source languages is
    joined with commas and bound as one value, so the query compares the
    language column with the whole joined string.  When no stored source
    language contains a comma, no row at all is a candidate. *)
Theorem candidates_language_list (self : TMDB) (conn : connection)
    (q : text_arg) (a b : str) (rest : list str) (tl : langs_arg)
    (rows : list (source_row * target_row)) :
  Forall (fun s => has_comma (s_lang s) = false) (sources (working conn)) ->
  candidates self conn q (LangList (a :: b :: rest)) tl = Ok rows ->
  rows = [].
Proof.
  intros Hno Hc.
  destruct (candidates_ok _ _ _ _ _ _ Hc) as (lo & hi & _ & _ & ->).
  unfold select_candidates. apply filter_none. intros row Hin.
  apply join_rows_fst in Hin.
  rewrite Forall_forall in Hno. specialize (Hno _ Hin).
  destruct (String.eqb (s_lang (fst row))
                       (join_langs (LangList (a :: b :: rest)))) eqn:He;
    [|reflexivity].
  apply String.eqb_eq in He. rewrite He in Hno.
  cbn [join_langs] in Hno. rewrite has_comma_join in Hno. discriminate.
Qed.

Lemma candidates_language_list_witness :
  select_candidates (working (hello_connection (Some (u "")))) "en,de" "fr"
                    9 14 = [].
Proof.
  apply (candidates_language_list default_tmdb
           (hello_connection (Some (u ""))) (StrArg "Hello world")
           "en" "de" [] (LangList ["fr"])).
  - vm_compute. repeat constructor.
  - vm_compute. reflexivity.
Defined.

(** C1, as stated, fails: with the pair [Hello world -> Bonjour le monde]
    stored as English to French, the query for source languages
    [["en"; "de"]] gets no candidate, although the stored row's language is
    one of the two tags and its length is inside the window. *)
Lemma candidates_membership_fails :
  ~ (forall (conn : connection) (sl tl : list str) (lo hi : Z),
       min_levenshtein_length 11 75 = Ok lo ->
       max_levenshtein_length 11 75 1000 = Ok hi ->
       candidates default_tmdb conn (StrArg "Hello world") (LangList sl)
                  (LangList tl)
       = Ok (spec_candidates (working conn) sl tl lo hi)).
Proof.
  intros H.
  specialize (H (hello_connection (Some (u ""))) ["en"; "de"] ["fr"] 9 14
                eq_refl eq_refl).
  vm_compute in H. discriminate H.
Qed.

(** ** Round trip *)

(** C9, as stated, fails: the claim leaves the context of the unit open,
    and when the inserted unit has none the query does not return at all. *)
Lemma round_trip_null_context_fails :
  ~ (forall unit : translation_unit,
       source unit = u "Hello world" ->
       target unit = u "Bonjour le monde" ->
       exists results r,
         translate_unit default_tmdb
           (snd (add_unit None 1200000000 empty_connection unit
                          (Some "en") (Some "fr") true))
           (StrArg "Hello world") (LangList ["en"]) (LangList ["fr"])
         = Ok results /\
         In r results /\ (m_quality r == 100)%Q /\
         m_target r = "Bonjour le monde").
Proof.
  intros H.
  destruct (H (hello_unit None) eq_refl eq_refl) as (results & r & Hr & _).
  vm_compute in Hr. discriminate Hr.
Qed.

(** The tables after one [add_unit] on a fresh database. *)
Lemma add_unit_on_empty (now : Z) (unit : translation_unit)
    (sl tl : option str) (commit : bool) :
  truthy (resolve (getsourcelanguage unit) sl) = true ->
  truthy (resolve (gettargetlanguage unit) tl) = true ->
  add_unit None now empty_connection unit sl tl commit
  = (Ok tt,
     let t :=
       {| sources :=
            [{| s_sid := 1; s_text := source unit;
                s_context := getcontext unit;
                s_lang := lang_value (resolve (getsourcelanguage unit) sl);
                s_length := len_unicode (source unit) |}];
          targets :=
            [{| t_tid := 1; t_sid := 1; t_text := target unit;
                t_lang := lang_value (resolve (gettargetlanguage unit) tl);
                t_length := len_unicode (target unit); t_time := now |}];
          sources_seq := 1; targets_seq := 1 |} in
     {| committed := if commit then t else empty_tables; working := t |}).
Proof.
  intros Hs Ht.
  rewrite (add_unit_resolved None now empty_connection unit sl tl commit
                             Hs Ht).
  destruct commit; reflexivity.
Qed.

(** The query on a store that holds one pair whose source length is in
    the window and whose score reaches the floor. *)
Lemma translate_unit_single (self : TMDB) (conn : connection) (q : text_arg)
    (sl tl : langs_arg) (srow : source_row) (trow : target_row)
    (c : unicode) (lo hi : Z) :
  sources (working conn) = [srow] ->
  targets (working conn) = [trow] ->
  s_sid srow = t_sid trow ->
  s_context srow = Some c ->
  join_langs sl = s_lang srow ->
  join_langs tl = t_lang trow ->
  min_levenshtein_length (len_str (encode_arg q)) (min_similarity self)
  = Ok lo ->
  max_levenshtein_length (len_str (encode_arg q)) (min_similarity self)
                         (max_length self) = Ok hi ->
  lo <= s_length srow <= hi ->
  (inject_Z (min_similarity self)
   <= comparer self (encode_arg q) (encode_utf8 (s_text srow))
               (min_similarity self))%Q ->
  1 <= max_candidates self ->
  translate_unit self conn q sl tl
  = Ok [{| m_source := encode_utf8 (s_text srow);
           m_target := encode_utf8 (t_text trow);
           m_context := encode_utf8 c;
           m_quality := comparer self (encode_arg q)
                                 (encode_utf8 (s_text srow))
                                 (min_similarity self) |}].
Proof.
  intros Hsrc Htgt Hsid Hctx Hsl Htl Hlo Hhi Hlen Hq Hcap.
  unfold translate_unit, candidates. rewrite Hlo, Hhi. cbn [bind].
  unfold select_candidates, join_rows. rewrite Hsrc, Htgt, Hsl, Htl.
  cbn [flat_map filter map app]. rewrite Hsid, Z.eqb_refl.
  cbn [flat_map filter map app fst snd]. rewrite !String.eqb_refl.
  destruct Hlen as [H1 H2].
  apply Z.leb_le in H1, H2. rewrite H1, H2.
  cbn [andb score_rows]. unfold build_result. cbn [fst snd]. rewrite Hctx.
  cbn [encode_column bind]. unfold good_enough. cbn [m_quality].
  apply Qle_bool_iff in Hq. rewrite Hq. cbn [sort_by_quality insert_by_quality].
  unfold slice_to. destruct (0 <=? max_candidates self) eqn:H0;
    [|apply Z.leb_gt in H0; lia].
  destruct (Z.to_nat (max_candidates self)) as [|n] eqn:Hn; [lia|].
  cbn [firstn]. destruct n; reflexivity.
Qed.

(** The round trip of the example when the unit does have a context
    (possibly the empty string): on a fresh store into which [add_unit]
    inserted the unit with source [Hello world], target
    [Bonjour le monde], source language [en] and target language [fr], the
    query [translate_unit("Hello world", ["en"], ["fr"])] returns one
    record, with quality 100 and target [Bonjour le monde]. *)
Lemma round_trip (now : Z) (unit : translation_unit) (c : unicode)
    (sl tl : option str) (commit : bool) (q : text_arg) :
  source unit = u "Hello world" ->
  target unit = u "Bonjour le monde" ->
  getcontext unit = Some c ->
  resolve (getsourcelanguage unit) sl = Some "en" ->
  resolve (gettargetlanguage unit) tl = Some "fr" ->
  encode_arg q = "Hello world" ->
  exists r,
    translate_unit default_tmdb
      (snd (add_unit None now empty_connection unit sl tl commit))
      q (LangList ["en"]) (LangList ["fr"]) = Ok [r] /\
    (m_quality r == 100)%Q /\
    m_target r = "Bonjour le monde".
Proof.
  intros Hsrc Htgt Hctx Hs Ht Hq.
  assert (Hs' : truthy (resolve (getsourcelanguage unit) sl) = true)
    by (rewrite Hs; reflexivity).
  assert (Ht' : truthy (resolve (gettargetlanguage unit) tl) = true)
    by (rewrite Ht; reflexivity).
  rewrite (add_unit_on_empty now unit sl tl commit Hs' Ht').
  cbv zeta. cbn [snd]. rewrite Hs, Ht, Hsrc, Htgt, Hctx. cbn [lang_value].
  eexists. split; [|split].
  - eapply (translate_unit_single default_tmdb _ q _ _ _ _ c 9 14).
    + reflexivity.
    + reflexivity.
    + reflexivity.
    + reflexivity.
    + reflexivity.
    + reflexivity.
    + rewrite Hq. vm_compute. reflexivity.
    + rewrite Hq. vm_compute. reflexivity.
    + vm_compute. split; discriminate.
    + rewrite Hq. vm_compute. discriminate.
    + vm_compute. discriminate.
  - cbn [m_quality]. rewrite Hq. vm_compute. reflexivity.
  - reflexivity.
Qed.

Lemma round_trip_witness :
  exists r,
    translate_unit default_tmdb (hello_connection (Some (u "")))
      (StrArg "Hello world") (LangList ["en"]) (LangList ["fr"]) = Ok [r] /\
    (m_quality r == 100)%Q /\
    m_target r = "Bonjour le monde".
Proof.
  exact (round_trip 1200000000 (hello_unit (Some (u ""))) (u "")
           (Some "en") (Some "fr") true (StrArg "Hello world")
           eq_refl eq_refl eq_refl eq_refl eq_refl eq_refl).
Defined.

(** ** Insertion: the two steps *)

Lemma existsb_find {A : Type} (p : A -> bool) (l : list A) :
  existsb p l = true ->
  exists x, find p l = Some x /\ In x l /\ p x = true.
Proof.
  induction l as [|y l IH]; simpl; [discriminate|].
  destruct (p y) eqn:Hy.
  - intros _. exists y. auto.
  - simpl. intros H. destruct (IH H) as (x & Hf & Hin & Hx).
    exists x. auto.
Qed.

Lemma find_app_fresh {A : Type} (p : A -> bool) (l : list A) (x : A) :
  existsb p l = false -> p x = true -> find p (l ++ [x]) = Some x.
Proof.
  induction l as [|y l IH]; simpl; intros Hl Hx.
  - rewrite Hx. reflexivity.
  - apply orb_false_iff in Hl. destruct Hl as [Hy Hl].
    rewrite Hy. apply IH; assumption.
Qed.

Lemma existsb_false_In {A : Type} (p : A -> bool) (l : list A) (x : A) :
  existsb p l = false -> In x l -> p x = false.
Proof.
  intros H Hin. destruct (p x) eqn:Hx; [|reflexivity].
  assert (existsb p l = true) by (apply existsb_exists; eauto).
  congruence.
Qed.

Lemma fails_some (fault : option statement) (st : statement) :
  fails fault st = true -> exists st', fault = Some st'.
Proof. destruct fault as [f|]; [eauto | discriminate]. Qed.

(** What a successful source step did: it appended the unit's row under
    the next rowid, or it found the row that the index refused. *)
Lemma source_step_inv (fault : option statement) (t t1 : tables)
    (unit : translation_unit) (s : str) (sid : Z) :
  source_step fault t unit s = Ok (sid, t1) ->
  (existsb (source_collides (source unit) (getcontext unit) s) (sources t)
   = false /\
   sid = sources_seq t + 1 /\
   t1 = add_source t (source_row_of unit s sid)) \/
  (existsb (source_collides (source unit) (getcontext unit) s) (sources t)
   = true /\
   t1 = t /\
   select_sid t (source unit) (getcontext unit) s = Some sid).
Proof.
  unfold source_step, insert_source.
  destruct (fails fault InsertSource); [discriminate|].
  destruct (existsb _ (sources t)) eqn:Hex.
  - destruct (fails fault SelectSid); [discriminate|].
    destruct (select_sid _ _ _ _) as [sid'|] eqn:Hsel; [|discriminate].
    intros H; inversion H; subst. right. auto.
  - intros H; inversion H; subst. left. auto.
Qed.

Lemma target_step_inv (fault : option statement) (now : Z) (t1 t2 : tables)
    (sid : Z) (unit : translation_unit) (l : str) :
  target_step fault now t1 sid unit l = Ok t2 ->
  (existsb (target_collides sid (target unit) l) (targets t1) = false /\
   t2 = add_target t1 (target_row_of unit l (targets_seq t1 + 1) sid now)) \/
  (existsb (target_collides sid (target unit) l) (targets t1) = true /\
   t2 = t1).
Proof.
  unfold target_step, insert_target.
  destruct (fails fault InsertTarget); [discriminate|].
  destruct (existsb _ (targets t1)) eqn:Hex; intros H; inversion H; subst;
    [right | left]; auto.
Qed.

(** The only exception a step lets out is the storage's own. *)
Lemma source_step_raises (fault : option statement) (t : tables)
    (unit : translation_unit) (s : str) (e : exn) :
  source_step fault t unit s = Raise e ->
  e = OperationalError /\ exists st, fault = Some st.
Proof.
  unfold source_step, insert_source.
  destruct (fails fault InsertSource) eqn:H1.
  - intros H; inversion H. split; [reflexivity | eapply fails_some; eauto].
  - destruct (existsb _ (sources t)) eqn:Hex; [|discriminate].
    destruct (fails fault SelectSid) eqn:H2.
    + intros H; inversion H. split; [reflexivity | eapply fails_some; eauto].
    + unfold select_sid.
      destruct (existsb_find _ _ Hex) as (x & Hf & _). rewrite Hf.
      discriminate.
Qed.

Lemma target_step_raises (fault : option statement) (now : Z) (t1 : tables)
    (sid : Z) (unit : translation_unit) (l : str) (e : exn) :
  target_step fault now t1 sid unit l = Raise e ->
  e = OperationalError /\ exists st, fault = Some st.
Proof.
  unfold target_step, insert_target.
  destruct (fails fault InsertTarget) eqn:H1.
  - intros H; inversion H. split; [reflexivity | eapply fails_some; eauto].
  - destruct (existsb _ (targets t1)); discriminate.
Qed.

Lemma source_step_no_fault (t : tables) (unit : translation_unit) (s : str) :
  exists sid t1, source_step None t unit s = Ok (sid, t1).
Proof.
  destruct (source_step None t unit s) as [[sid t1]|e] eqn:H; [eauto|].
  destruct (source_step_raises _ _ _ _ _ H) as (_ & st & Hst). discriminate.
Qed.

(** The [sid] a source step yields is the rowid of a stored source row. *)
Lemma source_step_sid (fault : option statement) (t t1 : tables)
    (unit : translation_unit) (s : str) (sid : Z) :
  source_step fault t unit s = Ok (sid, t1) ->
  exists r, In r (sources t1) /\ s_sid r = sid.
Proof.
  intros H. destruct (source_step_inv _ _ _ _ _ _ H)
    as [(_ & _ & ->) | (Hex & -> & Hsel)].
  - exists (source_row_of unit s sid). split; [|reflexivity].
    cbn [add_source sources]. apply in_or_app. right. left. reflexivity.
  - unfold select_sid in Hsel.
    destruct (existsb_find _ _ Hex) as (x & Hf & Hin & _).
    rewrite Hf in Hsel. cbn [option_map] in Hsel. inversion Hsel.
    exists x. auto.
Qed.

(** [add_unit] once both languages are defined, in terms of the steps. *)
Lemma add_unit_steps (fault : option statement) (now : Z) (conn : connection)
    (unit : translation_unit) (sl tl : option str) (commit : bool) :
  truthy (resolve (getsourcelanguage unit) sl) = true ->
  truthy (resolve (gettargetlanguage unit) tl) = true ->
  add_unit fault now conn unit sl tl commit
  = match source_step fault (working conn) unit
            (lang_value (resolve (getsourcelanguage unit) sl)) with
    | Raise e => (Raise e, if commit then rollback conn else conn)
    | Ok (sid, t1) =>
        match target_step fault now t1 sid unit
                (lang_value (resolve (gettargetlanguage unit) tl)) with
        | Raise e =>
            (Raise e, if commit then rollback conn else with_working conn t1)
        | Ok t2 =>
            if commit then
              if fails fault Commit
              then (Raise OperationalError, rollback conn)
              else (Ok tt, Sqlite.commit (with_working conn t2))
            else (Ok tt, with_working conn t2)
        end
    end.
Proof.
  intros Hs Ht.
  rewrite (add_unit_resolved fault now conn unit sl tl commit Hs Ht).
  unfold add_unit_try.
  destruct (source_step _ _ _ _) as [[sid t1]|e]; [|reflexivity].
  destruct (target_step _ _ _ _ _ _) as [t2|e].
  - destruct commit; [|reflexivity].
    destruct (fails fault Commit); reflexivity.
  - destruct commit; reflexivity.
Qed.

Lemma add_unit_undefined (fault : option statement) (now : Z)
    (conn : connection) (unit : translation_unit) (sl tl : option str)
    (commit : bool) :
  truthy (resolve (getsourcelanguage unit) sl) = false \/
  truthy (resolve (gettargetlanguage unit) tl) = false ->
  exists side,
    add_unit fault now conn unit sl tl commit
    = (Raise (LanguageError ("undefined " ++ side ++ " language")), conn).
Proof.
  intros H. unfold add_unit. fold (resolve (getsourcelanguage unit) sl).
  fold (resolve (gettargetlanguage unit) tl).
  destruct (truthy (resolve (getsourcelanguage unit) sl)) eqn:Hs.
  - destruct H as [H|H]; [discriminate|]. rewrite H. cbn [negb].
    exists "target". reflexivity.
  - cbn [negb]. exists "source". reflexivity.
Qed.

Lemma truthy_cases (o : option str) : truthy o = true \/ truthy o = false.
Proof. destruct (truthy o); auto. Qed.

(** ** Insertion: invariants of the tables *)

Lemma NoDup_snoc {A : Type} (l : list A) (x : A) :
  NoDup l -> ~ In x l -> NoDup (l ++ [x]).
Proof.
  intros Hl Hx. induction Hl as [|y l Hy Hl IH]; simpl.
  - constructor; [intros [] | constructor].
  - constructor.
    + rewrite in_app_iff. intros [H|[H|[]]]; [auto|].
      subst. apply Hx. left. reflexivity.
    + apply IH. intros H. apply Hx. right. exact H.
Qed.

Lemma source_collides_key (text c : unicode) (lang : str) (r : source_row) :
  source_collides text (Some c) lang r = true
  <-> source_key r = (text, Some c, lang).
Proof.
  unfold source_collides, source_key, sql_eq_nullable.
  rewrite !andb_true_iff, unicode_eqb_eq, String.eqb_eq.
  destruct (s_context r) as [x|].
  - rewrite unicode_eqb_eq. split.
    + intros [[-> ->] ->]. reflexivity.
    + intros H. inversion H. auto.
  - split; [intros [[_ H] _]; discriminate | intros H; inversion H].
Qed.

Lemma sources_unique_add (t : tables) (unit : translation_unit) (s : str)
    (sid : Z) :
  sources_unique t ->
  existsb (source_collides (source unit) (getcontext unit) s) (sources t)
  = false ->
  sources_unique (add_source t (source_row_of unit s sid)).
Proof.
  unfold sources_unique. intros Hu Hex. cbn [add_source sources].
  rewrite filter_app. cbn [filter]. unfold has_context at 2.
  cbn [source_row_of s_context].
  destruct (getcontext unit) as [c|] eqn:Hc.
  - rewrite map_app. cbn [map]. apply NoDup_snoc; [exact Hu|].
    intros Hin. apply in_map_iff in Hin. destruct Hin as (r & Hk & Hr).
    apply filter_In in Hr. destruct Hr as [Hr _].
    pose proof (existsb_false_In _ _ _ Hex Hr) as Hno.
    assert (Hyes : source_collides (source unit) (Some c) s r = true).
    { apply source_collides_key. rewrite Hk. unfold source_key.
      cbn [source_row_of s_text s_context s_lang]. rewrite Hc.
      reflexivity. }
    congruence.
  - rewrite app_nil_r. exact Hu.
Qed.

Lemma targets_unique_add (t : tables) (unit : translation_unit) (l : str)
    (tid sid now : Z) :
  targets_unique t ->
  existsb (target_collides sid (target unit) l) (targets t) = false ->
  targets_unique (add_target t (target_row_of unit l tid sid now)).
Proof.
  unfold targets_unique. intros Hu Hex. cbn [add_target targets].
  rewrite map_app. cbn [map]. apply NoDup_snoc; [exact Hu|].
  intros Hin. apply in_map_iff in Hin. destruct Hin as (r & Hk & Hr).
  pose proof (existsb_false_In _ _ _ Hex Hr) as Hno.
  assert (Hyes : target_collides sid (target unit) l r = true).
  { apply target_collides_key. rewrite Hk. reflexivity. }
  congruence.
Qed.

Lemma rowids_fresh_add_source (t : tables) (r : source_row) :
  rowids_fresh t -> s_sid r = sources_seq t + 1 ->
  rowids_fresh (add_source t r).
Proof.
  intros (Hs & Hsb & Ht & Htb) Hr. unfold rowids_fresh.
  cbn [add_source sources targets sources_seq targets_seq].
  repeat split; try assumption.
  - rewrite map_app. cbn [map]. apply NoDup_snoc; [exact Hs|].
    intros Hin. apply in_map_iff in Hin. destruct Hin as (x & Hx & Hin).
    specialize (Hsb x Hin). lia.
  - intros x Hin. apply in_app_or in Hin. destruct Hin as [Hin|[<-|[]]].
    + specialize (Hsb x Hin). lia.
    + lia.
Qed.

Lemma rowids_fresh_add_target (t : tables) (r : target_row) :
  rowids_fresh t -> t_tid r = targets_seq t + 1 ->
  rowids_fresh (add_target t r).
Proof.
  intros (Hs & Hsb & Ht & Htb) Hr. unfold rowids_fresh.
  cbn [add_target sources targets sources_seq targets_seq].
  repeat split; try assumption.
  - rewrite map_app. cbn [map]. apply NoDup_snoc; [exact Ht|].
    intros Hin. apply in_map_iff in Hin. destruct Hin as (x & Hx & Hin).
    specialize (Htb x Hin). lia.
  - intros x Hin. apply in_app_or in Hin. destruct Hin as [Hin|[<-|[]]].
    + specialize (Htb x Hin). lia.
    + lia.
Qed.

Lemma consistent_source_step (fault : option statement) (t t1 : tables)
    (unit : translation_unit) (s : str) (sid : Z) :
  consistent t -> source_step fault t unit s = Ok (sid, t1) -> consistent t1.
Proof.
  intros Hc H.
  destruct (source_step_inv _ _ _ _ _ _ H)
    as [(Hex & Hsid & ->) | (_ & -> & _)];
    [|exact Hc].
  destruct Hc as (Hsu & Htu & Hrf & (Hls & Hlt) & Hfr).
  split; [apply sources_unique_add; assumption|].
  split; [exact Htu|].
  split.
  { intros tr Htr. destruct (Hrf tr Htr) as (x & Hx & Hxs).
    exists x. split; [|exact Hxs].
    cbn [add_source sources]. apply in_or_app. left. exact Hx. }
  split.
  { split; [|exact Hlt]. intros x Hx. cbn [add_source sources] in Hx.
    apply in_app_or in Hx. destruct Hx as [Hx|[<-|[]]];
      [apply Hls, Hx | reflexivity]. }
  apply rowids_fresh_add_source; [exact Hfr | exact Hsid].
Qed.

Lemma consistent_target_step (fault : option statement) (now : Z)
    (t t1 t2 : tables) (unit : translation_unit) (s l : str) (sid : Z) :
  consistent t1 ->
  source_step fault t unit s = Ok (sid, t1) ->
  target_step fault now t1 sid unit l = Ok t2 ->
  consistent t2.
Proof.
  intros Hc Hs H.
  destruct (target_step_inv _ _ _ _ _ _ _ H) as [(Hex & ->) | (_ & ->)];
    [|exact Hc].
  destruct Hc as (Hsu & Htu & Hrf & (Hls & Hlt) & Hfr).
  split; [exact Hsu|].
  split; [apply targets_unique_add; assumption|].
  split.
  { intros tr Htr. cbn [add_target sources targets] in *.
    apply in_app_or in Htr. destruct Htr as [Htr|[<-|[]]];
      [apply Hrf, Htr|].
    destruct (source_step_sid _ _ _ _ _ _ Hs) as (x & Hx & Hxs).
    exists x. split; [exact Hx | exact Hxs]. }
  split.
  { split; [exact Hls|]. intros x Hx. cbn [add_target targets] in Hx.
    apply in_app_or in Hx. destruct Hx as [Hx|[<-|[]]];
      [apply Hlt, Hx | reflexivity]. }
  apply rowids_fresh_add_target; [exact Hfr | reflexivity].
Qed.

(** Whatever the two steps preserve, [add_unit] and [add_store] preserve
    for the committed tables and for those of the open transaction,
    whether they return or raise. *)
Section Preservation.

Variable P : tables -> Prop.

Hypothesis P_source_step :
  forall fault t t1 unit s sid,
    P t -> source_step fault t unit s = Ok (sid, t1) -> P t1.

Hypothesis P_target_step :
  forall fault now t t1 t2 unit s l sid,
    P t1 ->
    source_step fault t unit s = Ok (sid, t1) ->
    target_step fault now t1 sid unit l = Ok t2 ->
    P t2.

Lemma add_unit_preserves (fault : option statement) (now : Z)
    (conn : connection) (unit : translation_unit) (sl tl : option str)
    (commit : bool) :
  both P conn -> both P (snd (add_unit fault now conn unit sl tl commit)).
Proof.
  intros [Hc Hw].
  destruct (truthy_cases (resolve (getsourcelanguage unit) sl)) as [Hs|Hs];
    [destruct (truthy_cases (resolve (gettargetlanguage unit) tl))
       as [Ht|Ht]|].
  - rewrite (add_unit_steps fault now conn unit sl tl commit Hs Ht).
    destruct (source_step _ _ _ _) as [[sid t1]|e] eqn:H1.
    + pose proof (P_source_step _ _ _ _ _ _ Hw H1) as Ht1.
      destruct (target_step _ _ _ _ _ _) as [t2|e] eqn:H2.
      * pose proof (P_target_step _ _ _ _ _ _ _ _ _ Ht1 H1 H2) as Ht2.
        destruct commit; [destruct (fails fault Commit)|];
          split; assumption.
      * destruct commit; split; assumption.
    + destruct commit; split; assumption.
  - destruct (add_unit_undefined fault now conn unit sl tl commit
                (or_intror Ht)) as [side ->].
    split; assumption.
  - destruct (add_unit_undefined fault now conn unit sl tl commit
                (or_introl Hs)) as [side ->].
    split; assumption.
Qed.

Lemma add_store_loop_preserves (w : world) (us : list translation_unit)
    (sl tl : option str) :
  forall (i : nat) (conn : connection),
    both P conn -> both P (snd (add_store_loop w i conn us sl tl)).
Proof.
  induction us as [|unit us IH]; intros i conn H; simpl; [exact H|].
  destruct (istranslatable unit && istranslated unit); [|apply IH, H].
  pose proof (add_unit_preserves (fault_at w i) (clock w i) conn unit sl tl
                                 false H) as H'.
  destruct (add_unit (fault_at w i) (clock w i) conn unit sl tl false)
    as [[r|e] conn'].
  - apply IH, H'.
  - exact H'.
Qed.

Lemma add_store_preserves (w : world) (conn : connection) (store : store)
    (sl tl : option str) (commit : bool) :
  both P conn -> both P (snd (add_store w conn store sl tl commit)).
Proof.
  intros H. unfold add_store.
  pose proof (add_store_loop_preserves w (units store) sl tl 0%nat conn H)
    as H'.
  destruct (add_store_loop w 0 conn (units store) sl tl) as [[r|e] conn'].
  - destruct commit; [destruct (commit_fails w)|]; try exact H'.
    destruct H' as [_ Hw]. split; exact Hw.
  - exact H'.
Qed.

End Preservation.

(** ** Insertion: outcomes of [add_unit] *)

(** X1: the only exceptions [add_unit] lets out are its own LanguageError,
    raised before anything is written, and an error of the storage itself.
    The IntegrityError of either INSERT never reaches the caller, and the
    lookup that follows a refused source row always finds a row. *)
Theorem add_unit_exceptions (fault : option statement) (now : Z)
    (conn conn' : connection) (unit : translation_unit) (sl tl : option str)
    (commit : bool) (e : exn) :
  add_unit fault now conn unit sl tl commit = (Raise e, conn') ->
  (exists side,
     e = LanguageError ("undefined " ++ side ++ " language") /\ conn' = conn)
  \/ (e = OperationalError /\ exists st, fault = Some st).
Proof.
  destruct (truthy_cases (resolve (getsourcelanguage unit) sl)) as [Hs|Hs];
    [destruct (truthy_cases (resolve (gettargetlanguage unit) tl))
       as [Ht|Ht]|].
  - rewrite (add_unit_steps fault now conn unit sl tl commit Hs Ht).
    intros H. right.
    destruct (source_step _ _ _ _) as [[sid t1]|e1] eqn:H1.
    + destruct (target_step _ _ _ _ _ _) as [t2|e2] eqn:H2.
      * destruct commit; [|discriminate].
        destruct (fails fault Commit) eqn:Hc; [|discriminate].
        inversion H. split; [reflexivity | eapply fails_some; eauto].
      * inversion H; subst. eapply target_step_raises; eauto.
    + inversion H; subst. eapply source_step_raises; eauto.
  - destruct (add_unit_undefined fault now conn unit sl tl commit
                (or_intror Ht)) as [side ->].
    intros H; inversion H. left. exists side. auto.
  - destruct (add_unit_undefined fault now conn unit sl tl commit
                (or_introl Hs)) as [side ->].
    intros H; inversion H. left. exists side. auto.
Qed.

Lemma add_unit_exceptions_witness :
  (exists side,
     OperationalError = LanguageError ("undefined " ++ side ++ " language") /\
     rollback (hello_connection (Some (u ""))) = hello_connection (Some (u "")))
  \/ (OperationalError = OperationalError /\
      exists st, Some InsertTarget = Some st).
Proof.
  apply (add_unit_exceptions (Some InsertTarget) 1200000001
           (hello_connection (Some (u "")))
           (rollback (hello_connection (Some (u "")))) goodbye_unit
           (Some "en") (Some "fr") true OperationalError).
  vm_compute. reflexivity.
Defined.

(** X2: with both languages defined and a storage that does not fail,
    [add_unit] returns normally, and with [commit=True] everything the
    transaction holds is committed. *)
Theorem add_unit_returns (now : Z) (conn : connection)
    (unit : translation_unit) (sl tl : option str) (commit : bool) :
  truthy (resolve (getsourcelanguage unit) sl) = true ->
  truthy (resolve (gettargetlanguage unit) tl) = true ->
  exists conn',
    add_unit None now conn unit sl tl commit = (Ok tt, conn') /\
    committed conn' = if commit then working conn' else committed conn.
Proof.
  intros Hs Ht.
  rewrite (add_unit_steps None now conn unit sl tl commit Hs Ht).
  destruct (source_step_no_fault (working conn) unit
              (lang_value (resolve (getsourcelanguage unit) sl)))
    as (sid & t1 & ->).
  destruct (target_step_no_fault now t1 sid unit
              (lang_value (resolve (gettargetlanguage unit) tl)))
    as (t2 & ->).
  destruct commit; cbn [fails]; eexists; split; reflexivity.
Qed.

Lemma add_unit_returns_witness :
  exists conn',
    add_unit None 1200000001 (hello_connection None) goodbye_unit
             (Some "en") (Some "fr") false = (Ok tt, conn') /\
    committed conn' = committed (hello_connection None).
Proof.
  exact (add_unit_returns 1200000001 (hello_connection None) goodbye_unit
           (Some "en") (Some "fr") false eq_refl eq_refl).
Defined.

Lemma source_collides_self (unit : translation_unit) (c : unicode) (s : str)
    (sid : Z) :
  getcontext unit = Some c ->
  source_collides (source unit) (getcontext unit) s (source_row_of unit s sid)
  = true.
Proof.
  intros Hc. rewrite Hc. apply source_collides_key.
  unfold source_key. cbn [source_row_of s_text s_context s_lang].
  rewrite Hc. reflexivity.
Qed.

(** A source step repeated on tables with the same source rows finds the
    row of the first time, when the unit has a context. *)
Lemma source_step_again (t t1 t' : tables) (unit : translation_unit)
    (c : unicode) (s : str) (sid : Z) :
  getcontext unit = Some c ->
  source_step None t unit s = Ok (sid, t1) ->
  sources t' = sources t1 ->
  source_step None t' unit s = Ok (sid, t').
Proof.
  intros Hc H Hsrc.
  assert (Hgoal :
    existsb (source_collides (source unit) (getcontext unit) s) (sources t')
    = true /\
    select_sid t' (source unit) (getcontext unit) s = Some sid).
  { destruct (source_step_inv _ _ _ _ _ _ H)
      as [(Hex & Hsid & ->) | (Hex & -> & Hsel)].
    - unfold select_sid. rewrite Hsrc. cbn [add_source sources]. split.
      + rewrite existsb_app. cbn [existsb].
        rewrite (source_collides_self unit c s sid Hc).
        rewrite orb_true_r. reflexivity.
      + rewrite (find_app_fresh _ _ _ Hex
                   (source_collides_self unit c s sid Hc)).
        reflexivity.
    - unfold select_sid in *. rewrite Hsrc. auto. }
  destruct Hgoal as [Hex Hsel].
  unfold source_step, insert_source. cbn [fails]. rewrite Hex, Hsel.
  reflexivity.
Qed.

(** A target step repeated on tables with the same target rows writes
    nothing. *)
Lemma target_step_again (now now' : Z) (t1 t2 t' : tables)
    (unit : translation_unit) (l : str) (sid : Z) :
  target_step None now t1 sid unit l = Ok t2 ->
  targets t' = targets t2 ->
  target_step None now' t' sid unit l = Ok t'.
Proof.
  intros H Htg.
  assert (Hex : existsb (target_collides sid (target unit) l) (targets t')
                = true).
  { rewrite Htg.
    destruct (target_step_inv _ _ _ _ _ _ _ H) as [(_ & ->) | (Hex & ->)];
      [|exact Hex].
    cbn [add_target targets]. rewrite existsb_app. cbn [existsb].
    assert (Hself : target_collides sid (target unit) l
                      (target_row_of unit l (targets_seq t1 + 1) sid now)
                    = true)
      by (apply target_collides_key; reflexivity).
    rewrite Hself, orb_true_r. reflexivity. }
  unfold target_step, insert_target. cbn [fails]. rewrite Hex. reflexivity.
Qed.

(** X3: [add_unit] is idempotent for a unit that has a context: a second
    call with the same unit and languages returns normally and leaves the
    tables of the transaction exactly as the first call left them. *)
Theorem add_unit_twice (now now' : Z) (conn : connection)
    (unit : translation_unit) (c : unicode) (sl tl : option str)
    (commit commit' : bool) :
  truthy (resolve (getsourcelanguage unit) sl) = true ->
  truthy (resolve (gettargetlanguage unit) tl) = true ->
  getcontext unit = Some c ->
  exists conn1 conn2,
    add_unit None now conn unit sl tl commit = (Ok tt, conn1) /\
    add_unit None now' conn1 unit sl tl commit' = (Ok tt, conn2) /\
    working conn2 = working conn1.
Proof.
  intros Hs Ht Hc.
  rewrite (add_unit_steps None now conn unit sl tl commit Hs Ht).
  destruct (source_step_no_fault (working conn) unit
              (lang_value (resolve (getsourcelanguage unit) sl)))
    as (sid & t1 & H1).
  destruct (target_step_no_fault now t1 sid unit
              (lang_value (resolve (gettargetlanguage unit) tl)))
    as (t2 & H2).
  rewrite H1, H2.
  pose proof (source_step_again _ _ t2 _ _ _ _ Hc H1
                (target_step_sources _ _ _ _ _ _ _ H2)) as H1'.
  pose proof (target_step_again now now' _ _ t2 _ _ _ H2 eq_refl) as H2'.
  assert (Hsecond : forall conn1, working conn1 = t2 ->
            exists conn2,
              add_unit None now' conn1 unit sl tl commit' = (Ok tt, conn2) /\
              working conn2 = working conn1).
  { intros conn1 Hw.
    rewrite (add_unit_steps None now' conn1 unit sl tl commit' Hs Ht).
    rewrite Hw, H1', H2'.
    destruct commit'; cbn [fails]; eexists; split; reflexivity. }
  destruct commit; cbn [fails].
  - destruct (Hsecond (Sqlite.commit (with_working conn t2)) eq_refl)
      as (conn2 & Ha & Hb).
    eexists. exists conn2. split; [reflexivity|]. split; assumption.
  - destruct (Hsecond (with_working conn t2) eq_refl) as (conn2 & Ha & Hb).
    eexists. exists conn2. split; [reflexivity|]. split; assumption.
Qed.

Lemma add_unit_twice_witness :
  exists conn1 conn2,
    add_unit None 1200000000 empty_connection (hello_unit (Some (u "")))
             (Some "en") (Some "fr") true = (Ok tt, conn1) /\
    add_unit None 1200000060 conn1 (hello_unit (Some (u "")))
             (Some "en") (Some "fr") true = (Ok tt, conn2) /\
    working conn2 = working conn1.
Proof.
  exact (add_unit_twice 1200000000 1200000060 empty_connection
           (hello_unit (Some (u ""))) (u "") (Some "en") (Some "fr")
           true true eq_refl eq_refl eq_refl).
Defined.

(** X4: the three outcomes of [add_unit] with [commit=True].  After a
    normal return everything the transaction holds is committed; after a
    LanguageError the connection is exactly as it was, so rows that earlier
    [commit=False] calls left pending are still pending; after any other
    exception the open transaction has been rolled back, those earlier
    rows included. *)
Theorem add_unit_commit_outcome (fault : option statement) (now : Z)
    (conn conn' : connection) (unit : translation_unit) (sl tl : option str)
    (r : result NoneType) :
  add_unit fault now conn unit sl tl true = (r, conn') ->
  match r with
  | Ok _ => committed conn' = working conn'
  | Raise (LanguageError _) => conn' = conn
  | Raise _ => conn' = rollback conn
  end.
Proof.
  destruct (truthy_cases (resolve (getsourcelanguage unit) sl)) as [Hs|Hs];
    [destruct (truthy_cases (resolve (gettargetlanguage unit) tl))
       as [Ht|Ht]|].
  - rewrite (add_unit_steps fault now conn unit sl tl true Hs Ht).
    destruct (source_step _ _ _ _) as [[sid t1]|e1] eqn:H1.
    + destruct (target_step _ _ _ _ _ _) as [t2|e2] eqn:H2.
      * destruct (fails fault Commit); intros H; inversion H; reflexivity.
      * destruct (target_step_raises _ _ _ _ _ _ _ H2) as [-> _].
        intros H; inversion H; reflexivity.
    + destruct (source_step_raises _ _ _ _ _ H1) as [-> _].
      intros H; inversion H; reflexivity.
  - destruct (add_unit_undefined fault now conn unit sl tl true
                (or_intror Ht)) as [side ->].
    intros H; inversion H; reflexivity.
  - destruct (add_unit_undefined fault now conn unit sl tl true
                (or_introl Hs)) as [side ->].
    intros H; inversion H; reflexivity.
Qed.

Lemma add_unit_commit_outcome_witness :
  snd (add_unit (Some InsertTarget) 1200000001
         (snd (add_unit None 1200000000 empty_connection
                        (hello_unit (Some (u ""))) (Some "en") (Some "fr")
                        false))
         goodbye_unit (Some "en") (Some "fr") true)
  = rollback (snd (add_unit None 1200000000 empty_connection
                            (hello_unit (Some (u ""))) (Some "en")
                            (Some "fr") false)).
Proof.
  apply (add_unit_commit_outcome (Some InsertTarget) 1200000001
           (snd (add_unit None 1200000000 empty_connection
                          (hello_unit (Some (u ""))) (Some "en") (Some "fr")
                          false))
           _ goodbye_unit (Some "en") (Some "fr") (Raise OperationalError)).
  vm_compute. reflexivity.
Defined.

(** ** Insertion: invariants *)

Lemma consistent_empty : both consistent empty_connection.
Proof.
  assert (H : consistent empty_tables).
  { unfold consistent, sources_unique, targets_unique, targets_refer,
      lengths_stored, rowids_fresh. cbn.
    repeat split; try constructor; intros ? []. }
  split; exact H.
Qed.

(** X5: [add_unit] keeps the tables consistent, in what is committed and
    in what the open transaction sees, whether it returns or raises and
    wherever the storage fails: sources that have a context stay unique
    on (text, context, lang), targets stay unique on (sid, text, lang),
    every target names the sid of a stored source, the length columns
    hold the lengths of the texts, and rowids are never reused. *)
Theorem add_unit_keeps_consistent (fault : option statement) (now : Z)
    (conn : connection) (unit : translation_unit) (sl tl : option str)
    (commit : bool) :
  both consistent conn ->
  both consistent (snd (add_unit fault now conn unit sl tl commit)).
Proof.
  apply (add_unit_preserves consistent).
  - intros f t t1 u0 s sid. apply consistent_source_step.
  - intros f n t t1 t2 u0 s l sid. apply consistent_target_step.
Qed.

Lemma add_unit_keeps_consistent_witness :
  both consistent (hello_connection (Some (u ""))).
Proof.
  exact (add_unit_keeps_consistent None 1200000000 empty_connection
           (hello_unit (Some (u ""))) (Some "en") (Some "fr") true
           consistent_empty).
Defined.

(** X6: [add_store] keeps the tables consistent in the same sense, for
    every document and every way the storage may fail during the batch. *)
Theorem add_store_keeps_consistent (w : world) (conn : connection)
    (store : store) (sl tl : option str) (commit : bool) :
  both consistent conn ->
  both consistent (snd (add_store w conn store sl tl commit)).
Proof.
  apply (add_store_preserves consistent).
  - intros f t t1 u0 s sid. apply consistent_source_step.
  - intros f n t t1 t2 u0 s l sid. apply consistent_target_step.
Qed.

Lemma add_store_keeps_consistent_witness :
  both consistent
       (snd (add_store stormy empty_connection two_unit_store
                       (Some "en") (Some "fr") true)).
Proof.
  exact (add_store_keeps_consistent stormy empty_connection two_unit_store
           (Some "en") (Some "fr") true consistent_empty).
Defined.

(** ** Insertion: [add_store] *)

(** The rows of the transaction after one [add_unit] without commit: the
    rows from before and at most the unit's own. *)
Lemma add_unit_rows_from (fault : option statement) (now : Z)
    (conn : connection) (unit : translation_unit) (sl tl : option str) :
  let conn' := snd (add_unit fault now conn unit sl tl false) in
  (forall row, In row (sources (working conn')) ->
     In row (sources (working conn)) \/
     (s_text row = source unit /\ s_context row = getcontext unit)) /\
  (forall row, In row (targets (working conn')) ->
     In row (targets (working conn)) \/ t_text row = target unit).
Proof.
  cbv zeta.
  destruct (truthy_cases (resolve (getsourcelanguage unit) sl)) as [Hs|Hs];
    [destruct (truthy_cases (resolve (gettargetlanguage unit) tl))
       as [Ht|Ht]|].
  - rewrite (add_unit_steps fault now conn unit sl tl false Hs Ht).
    destruct (source_step _ _ _ _) as [[sid t1]|e1] eqn:H1;
      [|cbn [snd]; split; auto].
    assert (Hsrc : forall row, In row (sources t1) ->
              In row (sources (working conn)) \/
              (s_text row = source unit /\ s_context row = getcontext unit)).
    { intros row Hin.
      destruct (source_step_inv _ _ _ _ _ _ H1)
        as [(_ & _ & ->) | (_ & -> & _)]; [|auto].
      cbn [add_source sources] in Hin. apply in_app_or in Hin.
      destruct Hin as [Hin|[<-|[]]]; [auto|]. right. split; reflexivity. }
    pose proof (source_step_targets _ _ _ _ _ _ H1) as Htg.
    destruct (target_step _ _ _ _ _ _) as [t2|e2] eqn:H2; cbn [snd working
      with_working].
    + split.
      * intros row Hin. apply Hsrc.
        rewrite <- (target_step_sources _ _ _ _ _ _ _ H2). exact Hin.
      * intros row Hin.
        destruct (target_step_inv _ _ _ _ _ _ _ H2) as [(_ & ->) | (_ & ->)].
        -- cbn [add_target targets] in Hin. apply in_app_or in Hin.
           destruct Hin as [Hin|[<-|[]]];
             [left; rewrite <- Htg; exact Hin | right; reflexivity].
        -- left. rewrite <- Htg. exact Hin.
    + split; [exact Hsrc|]. intros row Hin. left. rewrite <- Htg. exact Hin.
  - destruct (add_unit_undefined fault now conn unit sl tl false
                (or_intror Ht)) as [side ->].
    cbn [snd]. split; auto.
  - destruct (add_unit_undefined fault now conn unit sl tl false
                (or_introl Hs)) as [side ->].
    cbn [snd]. split; auto.
Qed.

Lemma add_store_loop_rows_from (w : world) (us : list translation_unit)
    (sl tl : option str) :
  forall (i : nat) (conn : connection),
    let conn' := snd (add_store_loop w i conn us sl tl) in
    (forall row, In row (sources (working conn')) ->
       In row (sources (working conn)) \/
       exists unit, In unit us /\ taken unit = true /\
         s_text row = source unit /\ s_context row = getcontext unit) /\
    (forall row, In row (targets (working conn')) ->
       In row (targets (working conn)) \/
       exists unit, In unit us /\ taken unit = true /\
         t_text row = target unit).
Proof.
  induction us as [|unit us IH]; intros i conn; cbv zeta.
  - cbn [add_store_loop snd]. split; auto.
  - cbn [add_store_loop]. fold (taken unit).
    destruct (taken unit) eqn:Htk.
    + pose proof (add_unit_rows_from (fault_at w i) (clock w i) conn unit
                                     sl tl) as Hu.
      cbv zeta in Hu.
      destruct (add_unit (fault_at w i) (clock w i) conn unit sl tl false)
        as [[r|e] conn1]; cbn [snd] in Hu; destruct Hu as [Hus Hut].
      * specialize (IH (S i) conn1). cbv zeta in IH.
        destruct IH as [IHs IHt]. split.
        -- intros row Hin. destruct (IHs row Hin) as [H|(x & Hx & Hr)].
           ++ destruct (Hus row H) as [H'|H']; [auto|].
              right. exists unit. split; [left; reflexivity|]. auto.
           ++ right. exists x. split; [right; exact Hx | exact Hr].
        -- intros row Hin. destruct (IHt row Hin) as [H|(x & Hx & Hr)].
           ++ destruct (Hut row H) as [H'|H']; [auto|].
              right. exists unit. split; [left; reflexivity|]. auto.
           ++ right. exists x. split; [right; exact Hx | exact Hr].
      * cbn [snd]. split.
        -- intros row Hin. destruct (Hus row Hin) as [H'|H']; [auto|].
           right. exists unit. split; [left; reflexivity|]. auto.
        -- intros row Hin. destruct (Hut row Hin) as [H'|H']; [auto|].
           right. exists unit. split; [left; reflexivity|]. auto.
    + specialize (IH (S i) conn). cbv zeta in IH. destruct IH as [IHs IHt].
      split.
      * intros row Hin. destruct (IHs row Hin) as [H|(x & Hx & Hr)];
          [auto|]. right. exists x. split; [right; exact Hx | exact Hr].
      * intros row Hin. destruct (IHt row Hin) as [H|(x & Hx & Hr)];
          [auto|]. right. exists x. split; [right; exact Hx | exact Hr].
Qed.

(** X7: [add_store] stores nothing of a unit that is untranslatable or
    untranslated: every source row and every target row found after the
    call was there before, or carries the text of a unit of the document
    that is both translatable and translated. *)
Theorem add_store_takes_only_translated (w : world) (conn : connection)
    (store : store) (sl tl : option str) (commit : bool) :
  Forall (fun row =>
            In row (sources (working conn)) \/
            exists unit, In unit (units store) /\
              istranslatable unit = true /\ istranslated unit = true /\
              s_text row = source unit /\ s_context row = getcontext unit)
         (sources (working (snd (add_store w conn store sl tl commit)))) /\
  Forall (fun row =>
            In row (targets (working conn)) \/
            exists unit, In unit (units store) /\
              istranslatable unit = true /\ istranslated unit = true /\
              t_text row = target unit)
         (targets (working (snd (add_store w conn store sl tl commit)))).
Proof.
  pose proof (add_store_loop_rows_from w (units store) sl tl 0%nat conn) as H.
  cbv zeta in H.
  assert (Hw : working (snd (add_store w conn store sl tl commit))
               = working (snd (add_store_loop w 0 conn (units store) sl tl))).
  { unfold add_store.
    destruct (add_store_loop w 0 conn (units store) sl tl) as [[r|e] c];
      [|reflexivity].
    destruct commit; [destruct (commit_fails w)|]; reflexivity. }
  rewrite Hw. destruct H as [Hs Ht].
  split; apply Forall_forall; intros row Hin.
  - destruct (Hs row Hin) as [H|(x & Hx & Htk & Hr)]; [auto|].
    right. exists x. unfold taken in Htk. apply andb_true_iff in Htk.
    destruct Htk. auto.
  - destruct (Ht row Hin) as [H|(x & Hx & Htk & Hr)]; [auto|].
    right. exists x. unfold taken in Htk. apply andb_true_iff in Htk.
    destruct Htk. auto.
Qed.

(** X8: without [commit=True] neither [add_unit] nor [add_store] changes
    what is committed, whatever happens during the call. *)
Theorem no_commit_keeps_committed (fault : option statement) (now : Z)
    (w : world) (conn : connection) (unit : translation_unit)
    (store : store) (sl tl : option str) :
  committed (snd (add_unit fault now conn unit sl tl false)) = committed conn
  /\
  committed (snd (add_store w conn store sl tl false)) = committed conn.
Proof.
  split; [apply add_unit_keeps_committed|].
  unfold add_store.
  pose proof (add_store_loop_keeps_committed w (units store) sl tl 0%nat conn)
    as H.
  destruct (add_store_loop w 0 conn (units store) sl tl) as [[r|e] c];
    exact H.
Qed.

Lemma add_store_loop_app (w : world) (us1 us2 : list translation_unit)
    (sl tl : option str) :
  forall (i : nat) (conn : connection),
    add_store_loop w i conn (us1 ++ us2) sl tl
    = match add_store_loop w i conn us1 sl tl with
      | (Ok _, c) => add_store_loop w (i + List.length us1) c us2 sl tl
      | (Raise e, c) => (Raise e, c)
      end.
Proof.
  induction us1 as [|unit us1 IH]; intros i conn.
  - cbn [app add_store_loop List.length]. rewrite Nat.add_0_r. reflexivity.
  - cbn [app add_store_loop List.length].
    replace (i + Datatypes.S (List.length us1))%nat
      with (Datatypes.S i + List.length us1)%nat by lia.
    destruct (istranslatable unit && istranslated unit); [|apply IH].
    destruct (add_unit (fault_at w i) (clock w i) conn unit sl tl false)
      as [[r|e] c]; [apply IH | reflexivity].
Qed.



(** X10: a document is processed as its parts in sequence: without
    commit, [add_store] of a concatenation is [add_store] of the first
    part followed, when that returns, by [add_store] of the second part
    on the connection it left. *)
Theorem add_store_app (w : world) (conn : connection)
    (us1 us2 : list translation_unit) (sl tl : option str) :
  add_store w conn {| units := us1 ++ us2 |} sl tl false
  = match add_store w conn {| units := us1 |} sl tl false with
    | (Ok _, c) =>
        add_store (shift (List.length us1) w) c {| units := us2 |} sl tl false
    | (Raise e, c) => (Raise e, c)
    end.
Proof.
  assert (Hshift : forall us i n c,
            add_store_loop (shift n w) i c us sl tl
            = add_store_loop w (n + i) c us sl tl).
  { induction us as [|unit us IH]; intros i n c; [reflexivity|].
    cbn [add_store_loop shift fault_at clock].
    destruct (istranslatable unit && istranslated unit);
      [|rewrite IH, Nat.add_succ_r; reflexivity].
    destruct (add_unit _ _ c unit sl tl false) as [[r|e] c'];
      [rewrite IH, Nat.add_succ_r; reflexivity | reflexivity]. }
  unfold add_store. cbn [units]. rewrite add_store_loop_app.
  destruct (add_store_loop w 0 conn us1 sl tl) as [[r|e] c]; [|reflexivity].
  rewrite Hshift. rewrite Nat.add_0_r. cbn [Nat.add]. reflexivity.
Qed.

(** ** The length window: bounds that hold for every input *)

Lemma math_ceil_py_max_ge (x : Float64.float) (k lo : Z) :
  math_ceil (py_max (PyFloat x) (PyInt k)) = Ok lo -> k <= lo.
Proof.
  destruct (math_ceil (PyFloat x)) as [a|e] eqn:Ha.
  - rewrite (ceil_py_max x k a Ha). intros H; inversion H. lia.
  - destruct x as [s|s| |s m e']; cbn in Ha; try discriminate.
    + destruct s; cbn; intros H; inversion H; lia.
    + destruct (0 <=? e'); discriminate Ha.
Qed.

Lemma math_floor_py_min_le (x : Float64.float) (k hi : Z) :
  math_floor (py_min (PyFloat x) (PyInt k)) = Ok hi -> hi <= k.
Proof.
  destruct (math_floor (PyFloat x)) as [b|e] eqn:Hb.
  - rewrite (floor_py_min x k b Hb). intros H; inversion H. lia.
  - destruct x as [s|s| |s m e']; cbn in Hb; try discriminate.
    + destruct s; cbn; intros H; inversion H; lia.
    + destruct (0 <=? e'); discriminate Hb.
Qed.

Lemma min_levenshtein_length_ge (L S lo : Z) :
  min_levenshtein_length L S = Ok lo -> 2 <= lo.
Proof.
  unfold min_levenshtein_length.
  destruct (py_truediv (Float64.of_int S) (Float64.of_int 100)) as [r|e];
    cbn [bind]; [|discriminate].
  apply math_ceil_py_max_ge.
Qed.

Lemma max_levenshtein_length_le (L S M hi : Z) :
  max_levenshtein_length L S M = Ok hi -> hi <= M.
Proof.
  unfold max_levenshtein_length.
  destruct (py_truediv (Float64.of_int S) (Float64.of_int 100)) as [r|e];
    cbn [bind]; [|discriminate].
  destruct (py_truediv (Float64.of_int L) r) as [x|e]; cbn [bind];
    [|discriminate].
  apply math_floor_py_min_le.
Qed.



(** ** Retrieval: the candidate rows *)

Lemma join_rows_sid (t : tables) (row : source_row * target_row) :
  In row (join_rows t) -> s_sid (fst row) = t_sid (snd row).
Proof.
  unfold join_rows. rewrite in_flat_map. intros (s & Hs & Hin).
  apply in_map_iff in Hin. destruct Hin as (tr & <- & Hf).
  apply filter_In in Hf. destruct Hf as [_ Hf]. apply Z.eqb_eq in Hf.
  exact Hf.
Qed.

Lemma join_langs_single (a : langs_arg) (s : str) :
  tags_of a = [s] -> join_langs a = s.
Proof.
  destruct a as [x|l]; cbn [tags_of join_langs].
  - intros H; inversion H; reflexivity.
  - intros ->. reflexivity.
Qed.

(** X12: for a single language on each side, given as a tag or as a list
    of one tag, the candidate rows are exactly the stored pairs with that
    source language and that target language whose source length lies in
    the window. *)
Theorem candidates_single_tag (self : TMDB) (conn : connection)
    (q : text_arg) (sl tl : langs_arg) (s t : str)
    (rows : list (source_row * target_row)) :
  tags_of sl = [s] -> tags_of tl = [t] ->
  candidates self conn q sl tl = Ok rows ->
  exists lo hi,
    min_levenshtein_length (len_str (encode_arg q)) (min_similarity self)
    = Ok lo /\
    max_levenshtein_length (len_str (encode_arg q)) (min_similarity self)
                           (max_length self) = Ok hi /\
    rows = spec_candidates (working conn) (tags_of sl) (tags_of tl) lo hi.
Proof.
  intros Hs Ht Hc.
  destruct (candidates_ok _ _ _ _ _ _ Hc) as (lo & hi & Hlo & Hhi & ->).
  exists lo, hi. split; [exact Hlo|]. split; [exact Hhi|].
  rewrite (join_langs_single sl s Hs), (join_langs_single tl t Ht), Hs, Ht.
  unfold select_candidates, spec_candidates. apply filter_ext.
  intros row. cbn [existsb]. rewrite !orb_false_r. reflexivity.
Qed.

Lemma candidates_single_tag_witness :
  exists lo hi,
    min_levenshtein_length
      (len_str (encode_arg (StrArg "Hello world"))) (min_similarity default_tmdb)
    = Ok lo /\
    max_levenshtein_length
      (len_str (encode_arg (StrArg "Hello world"))) (min_similarity default_tmdb)
      (max_length default_tmdb) = Ok hi /\
    select_candidates (working (hello_connection (Some (u "")))) "en" "fr"
                      9 14
    = spec_candidates (working (hello_connection (Some (u ""))))
                      (tags_of (LangList ["en"])) (tags_of (LangTag "fr"))
                      lo hi.
Proof.
  apply (candidates_single_tag default_tmdb (hello_connection (Some (u "")))
           (StrArg "Hello world") (LangList ["en"]) (LangTag "fr") "en" "fr").
  - reflexivity.
  - reflexivity.
  - vm_compute. reflexivity.
Defined.

(** X13: a stored source of fewer than two characters, or of more than
    [max_length], is never a candidate: every candidate row has a stored
    source length between 2 and [max_length]. *)
Theorem candidates_length_bounds (self : TMDB) (conn : connection)
    (q : text_arg) (sl tl : langs_arg)
    (rows : list (source_row * target_row)) :
  candidates self conn q sl tl = Ok rows ->
  Forall (fun row => 2 <= s_length (fst row) <= max_length self) rows.
Proof.
  intros Hc.
  destruct (candidates_ok _ _ _ _ _ _ Hc) as (lo & hi & Hlo & Hhi & ->).
  pose proof (min_levenshtein_length_ge _ _ _ Hlo) as H2.
  pose proof (max_levenshtein_length_le _ _ _ _ Hhi) as HM.
  apply Forall_forall. intros row Hin.
  unfold select_candidates in Hin. apply filter_In in Hin.
  destruct Hin as [_ Hp]. rewrite !andb_true_iff in Hp.
  destruct Hp as [[_ Ha] Hb]. apply Z.leb_le in Ha, Hb. lia.
Qed.

Lemma candidates_length_bounds_witness :
  Forall (fun row => 2 <= s_length (fst row) <= max_length default_tmdb)
         (select_candidates (working (hello_connection (Some (u ""))))
                            "en" "fr" 9 14).
Proof.
  apply (candidates_length_bounds default_tmdb
           (hello_connection (Some (u ""))) (StrArg "Hello world")
           (LangList ["en"]) (LangList ["fr"])).
  vm_compute. reflexivity.
Defined.

(** ** Retrieval: the returned records *)

(** X14: every record [translate_unit] returns is built from a stored
    source row and a stored target row with the same sid, whose languages
    equal the bound language values and whose context is not NULL; its
    quality is the comparer's score of the query against that source. *)
Theorem translate_unit_sound (self : TMDB) (conn : connection)
    (q : text_arg) (sl tl : langs_arg) (results : list match_result) :
  translate_unit self conn q sl tl = Ok results ->
  Forall (fun r =>
            exists srow trow c,
              In srow (sources (working conn)) /\
              In trow (targets (working conn)) /\
              s_sid srow = t_sid trow /\
              s_lang srow = join_langs sl /\
              t_lang trow = join_langs tl /\
              s_context srow = Some c /\
              r = record_of self (encode_arg q) (srow, trow) c)
         results.
Proof.
  intros H.
  destruct (translate_unit_ok _ _ _ _ _ _ H) as (rows & scored & Hc & Hs & ->).
  destruct (candidates_ok _ _ _ _ _ _ Hc) as (lo & hi & _ & _ & ->).
  destruct (score_rows_ok _ _ _ _ Hs) as [_ Hgood].
  apply Forall_forall. intros r Hr.
  apply slice_to_In in Hr. apply (proj1 (sort_by_quality_In _ _)) in Hr.
  destruct (Hgood r Hr) as [_ (row & Hin & Hb)].
  destruct (build_result_ok _ _ _ _ Hb) as (c & Hctx & ->).
  unfold select_candidates in Hin. apply filter_In in Hin.
  destruct Hin as [Hj Hp]. rewrite !andb_true_iff in Hp.
  destruct Hp as [[[Ha Hb'] _] _].
  apply String.eqb_eq in Ha, Hb'.
  destruct row as [srow trow]. exists srow, trow, c.
  split; [exact (join_rows_fst _ _ Hj)|].
  split; [exact (join_rows_snd _ _ Hj)|].
  split; [exact (join_rows_sid _ _ Hj)|].
  repeat split; assumption.
Qed.

Lemma translate_unit_sound_witness :
  Forall (fun r =>
            exists srow trow c,
              In srow (sources (working (hello_connection (Some (u ""))))) /\
              In trow (targets (working (hello_connection (Some (u ""))))) /\
              s_sid srow = t_sid trow /\
              s_lang srow = join_langs (LangList ["en"]) /\
              t_lang trow = join_langs (LangList ["fr"]) /\
              s_context srow = Some c /\
              r = record_of default_tmdb (encode_arg (StrArg "Hello world"))
                            (srow, trow) c)
         [{| m_source := "Hello world"; m_target := "Bonjour le monde";
             m_context := ""; m_quality := 1100 # 11 |}].
Proof.
  apply (translate_unit_sound default_tmdb (hello_connection (Some (u "")))
           (StrArg "Hello world") (LangList ["en"]) (LangList ["fr"])).
  vm_compute. reflexivity.
Defined.






(** X16: a negative [max_candidates] does not cap the result: the slice
    [results[:max_candidates]] then drops that many records from the end
    of the sorted list, so what is returned has the number of scored
    records less the absolute value of the cap (none when there are too
    few). *)
Theorem translate_unit_negative_cap (self : TMDB) (conn : connection)
    (q : text_arg) (sl tl : langs_arg) (results : list match_result) :
  max_candidates self < 0 ->
  translate_unit self conn q sl tl = Ok results ->
  exists rows scored,
    candidates self conn q sl tl = Ok rows /\
    score_rows self (encode_arg q) rows = Ok scored /\
    Z.of_nat (List.length results)
    = Z.max 0 (Z.of_nat (List.length scored) + max_candidates self).
Proof.
  intros Hcap H.
  destruct (translate_unit_ok _ _ _ _ _ _ H) as (rows & scored & Hc & Hs & ->).
  exists rows, scored. split; [exact Hc|]. split; [exact Hs|].
  unfold slice_to. apply Z.leb_gt in Hcap. rewrite Hcap.
  apply Z.leb_gt in Hcap.
  rewrite length_firstn, sort_by_quality_length. lia.
Qed.

Lemma translate_unit_negative_cap_witness :
  exists rows scored,
    candidates
      {| max_candidates := -1; min_similarity := 75; max_length := 1000;
         comparer := levenshtein_similarity |}
      (hello_connection (Some (u ""))) (StrArg "Hello world")
      (LangList ["en"]) (LangList ["fr"]) = Ok rows /\
    score_rows
      {| max_candidates := -1; min_similarity := 75; max_length := 1000;
         comparer := levenshtein_similarity |}
      (encode_arg (StrArg "Hello world")) rows = Ok scored /\
    Z.of_nat (List.length (@nil match_result))
    = Z.max 0 (Z.of_nat (List.length scored) + -1).
Proof.
  apply (translate_unit_negative_cap
           {| max_candidates := -1; min_similarity := 75; max_length := 1000;
              comparer := levenshtein_similarity |}
           (hello_connection (Some (u ""))) (StrArg "Hello world")
           (LangList ["en"]) (LangList ["fr"])).
  - vm_compute. reflexivity.
  - vm_compute. reflexivity.
Defined.

(** X17: with [min_similarity = 0], [translate_unit] never returns: the
    upper bound of the window divides by [min_similarity/100.0], and the
    ZeroDivisionError escapes (whenever the lower bound, computed first,
    did not already fail). *)
Theorem translate_unit_zero_floor (self : TMDB) (conn : connection)
    (q : text_arg) (sl tl : langs_arg) :
  min_similarity self = 0 ->
  exists e,
    translate_unit self conn q sl tl = Raise e /\
    (forall lo,
       min_levenshtein_length (len_str (encode_arg q)) 0 = Ok lo ->
       e = ZeroDivisionError).
Proof.
  intros H0. unfold translate_unit, candidates. rewrite H0.
  destruct (min_levenshtein_length (len_str (encode_arg q)) 0) as [lo|e].
  - cbn [bind]. rewrite max_levenshtein_length_zero_floor. cbn [bind].
    exists ZeroDivisionError. split; [reflexivity|]. intros; reflexivity.
  - cbn [bind]. exists e. split; [reflexivity|]. intros lo H. discriminate.
Qed.

Lemma translate_unit_zero_floor_witness :
  exists e,
    translate_unit
      {| max_candidates := 3; min_similarity := 0; max_length := 1000;
         comparer := levenshtein_similarity |}
      (hello_connection (Some (u ""))) (StrArg "Hello world")
      (LangList ["en"]) (LangList ["fr"]) = Raise e /\
    (forall lo,
       min_levenshtein_length
         (len_str (encode_arg (StrArg "Hello world"))) 0 = Ok lo ->
       e = ZeroDivisionError).
Proof.
  exact (translate_unit_zero_floor
           {| max_candidates := 3; min_similarity := 0; max_length := 1000;
              comparer := levenshtein_similarity |}
           (hello_connection (Some (u ""))) (StrArg "Hello world")
           (LangList ["en"]) (LangList ["fr"]) eq_refl).
Defined.

(** X18: round trip for any unit and any settings.  On a store that was
    empty before the unit was added, the query returns exactly the
    unit's record, provided the unit has a context, its stored length
    (the number of code points of its source) lies in the window computed
    from the query (its length in bytes), the comparer scores the pair at
    the floor or above, and the cap is at least 1. *)
Theorem round_trip_any (self : TMDB) (now : Z) (unit : translation_unit)
    (c : unicode) (sl tl : option str) (commit : bool) (q : text_arg)
    (lo hi : Z) :
  truthy (resolve (getsourcelanguage unit) sl) = true ->
  truthy (resolve (gettargetlanguage unit) tl) = true ->
  getcontext unit = Some c ->
  min_levenshtein_length (len_str (encode_arg q)) (min_similarity self)
  = Ok lo ->
  max_levenshtein_length (len_str (encode_arg q)) (min_similarity self)
                         (max_length self) = Ok hi ->
  lo <= len_unicode (source unit) <= hi ->
  (inject_Z (min_similarity self)
   <= comparer self (encode_arg q) (encode_utf8 (source unit))
               (min_similarity self))%Q ->
  1 <= max_candidates self ->
  translate_unit self
    (snd (add_unit None now empty_connection unit sl tl commit)) q
    (LangTag (lang_value (resolve (getsourcelanguage unit) sl)))
    (LangTag (lang_value (resolve (gettargetlanguage unit) tl)))
  = Ok [{| m_source := encode_utf8 (source unit);
           m_target := encode_utf8 (target unit);
           m_context := encode_utf8 c;
           m_quality := comparer self (encode_arg q)
                                 (encode_utf8 (source unit))
                                 (min_similarity self) |}].
Proof.
  intros Hs Ht Hctx Hlo Hhi Hlen Hq Hcap.
  rewrite (add_unit_on_empty now unit sl tl commit Hs Ht).
  cbv zeta. cbn [snd].
  apply (translate_unit_single self _ q _ _
           (source_row_of unit
              (lang_value (resolve (getsourcelanguage unit) sl)) 1)
           (target_row_of unit
              (lang_value (resolve (gettargetlanguage unit) tl)) 1 1 now)
           c lo hi); try assumption; reflexivity.
Qed.

Lemma round_trip_any_witness :
  translate_unit default_tmdb (hello_connection (Some (u "")))
                 (UnicodeArg (u "Hello world")) (LangTag "en") (LangTag "fr")
  = Ok [{| m_source := "Hello world"; m_target := "Bonjour le monde";
           m_context := "";
           m_quality := levenshtein_similarity "Hello world" "Hello world"
                                               75 |}].
Proof.
  apply (round_trip_any default_tmdb 1200000000 (hello_unit (Some (u "")))
           (u "") (Some "en") (Some "fr") true (UnicodeArg (u "Hello world"))
           9 14).
  - reflexivity.
  - reflexivity.
  - reflexivity.
  - vm_compute. reflexivity.
  - vm_compute. reflexivity.
  - vm_compute. split; discriminate.
  - vm_compute. discriminate.
  - vm_compute. discriminate.
Defined.

(** ** Opening a database *)

Lemma getitem_setitem_same (r : tm_dbs_t) (k : str) (c : connection) :
  getitem (setitem r k c) k = Some c.
Proof.
  induction r as [|[k' c'] r IH]; cbn [setitem getitem].
  - rewrite String.eqb_refl. reflexivity.
  - destruct (String.eqb k' k) eqn:He; cbn [getitem]; rewrite He;
      [reflexivity | exact IH].
Qed.

Lemma getitem_setitem_other (r : tm_dbs_t) (k k0 : str) (c : connection) :
  k0 <> k -> getitem (setitem r k c) k0 = getitem r k0.
Proof.
  intros Hne. induction r as [|[k' c'] r IH]; cbn [setitem getitem].
  - destruct (String.eqb k k0) eqn:He; [|reflexivity].
    apply String.eqb_eq in He. congruence.
  - destruct (String.eqb k' k) eqn:He; cbn [getitem].
    + apply String.eqb_eq in He. subst k'.
      destruct (String.eqb k k0) eqn:He0; [|reflexivity].
      apply String.eqb_eq in He0. congruence.
    + destruct (String.eqb k' k0); [reflexivity | exact IH].
Qed.

Lemma setitem_unchanged (r : tm_dbs_t) (k : str) (c : connection) :
  getitem r k = Some c -> setitem r k c = r.
Proof.
  induction r as [|[k' c'] r IH]; cbn [setitem getitem]; [discriminate|].
  destruct (String.eqb k' k) eqn:He.
  - intros H; inversion H; reflexivity.
  - intros H. rewrite (IH H). reflexivity.
Qed.

Lemma init_database_returns (conn : connection) :
  init_database None conn = (Ok tt, Sqlite.commit conn).
Proof. reflexivity. Qed.

(** X19: [init_database] ends the open transaction whatever happens: it
    returns normally exactly when the storage does not fail, and then,
    as in every case but a failure of the COMMIT that [executescript]
    issues first, the rows that were pending are committed; in that one
    case they are rolled back. *)
Theorem init_database_ends_transaction (fault : option init_statement)
    (conn : connection) :
  exists r,
    init_database fault conn
    = (r, if init_fails fault ScriptCommit then rollback conn
          else Sqlite.commit conn) /\
    (r = Ok tt <-> fault = None) /\
    committed (snd (init_database fault conn))
    = working (snd (init_database fault conn)).
Proof.
  destruct fault as [[| |]|]; cbn; eexists;
    (split; [reflexivity|]); (split; [|reflexivity]);
    split; intros H; (discriminate H || reflexivity).
Qed.

(** X20: a second [TMDB] made for a database file that already has a
    connection takes that connection as it is, rows pending included, and
    its [init_database] commits them; the connections of other files are
    left alone.  So the rows that a failed [add_store] left pending are
    committed by the next [TMDB(db_file)]. *)
Theorem init_shares_connection (disk : str -> tables) (_tm_dbs : tm_dbs_t)
    (LevenshteinComparer : Z -> comparer_t) (db_file : str)
    (conn : connection) (max_candidates min_similarity max_length : Z) :
  getitem _tm_dbs db_file = Some conn ->
  exists self _tm_dbs',
    __init__ None disk _tm_dbs LevenshteinComparer db_file max_candidates
             min_similarity max_length = (Ok self, _tm_dbs') /\
    getitem _tm_dbs' db_file = Some (Sqlite.commit conn) /\
    (forall other, other <> db_file ->
       getitem _tm_dbs' other = getitem _tm_dbs other) /\
    comparer self = LevenshteinComparer max_length.
Proof.
  intros Hget. unfold __init__. rewrite Hget, init_database_returns.
  eexists. eexists. split; [reflexivity|].
  split; [apply getitem_setitem_same|].
  split; [|reflexivity].
  intros other Hne. apply getitem_setitem_other, Hne.
Qed.

Lemma init_shares_connection_witness :
  exists self _tm_dbs',
    __init__ None (fun _ => empty_tables)
             [("tm.db",
               snd (add_store stormy empty_connection two_unit_store
                              (Some "en") (Some "fr") true))]
             (fun _ => levenshtein_similarity) "tm.db" 3 75 1000
    = (Ok self, _tm_dbs') /\
    getitem _tm_dbs' "tm.db"
    = Some (Sqlite.commit
              (snd (add_store stormy empty_connection two_unit_store
                              (Some "en") (Some "fr") true))) /\
    (forall other, other <> "tm.db" ->
       getitem _tm_dbs' other
       = getitem [("tm.db",
                   snd (add_store stormy empty_connection two_unit_store
                                  (Some "en") (Some "fr") true))] other) /\
    comparer self = levenshtein_similarity.
Proof.
  exact (init_shares_connection (fun _ => empty_tables)
           [("tm.db",
             snd (add_store stormy empty_connection two_unit_store
                            (Some "en") (Some "fr") true))]
           (fun _ => levenshtein_similarity) "tm.db"
           (snd (add_store stormy empty_connection two_unit_store
                           (Some "en") (Some "fr") true))
           3 75 1000 eq_refl).
Defined.

(** X21: the first [TMDB] made for a database file opens a connection
    that shows what the file holds, with nothing pending, and registers
    it; a further [TMDB] for the same file then leaves the registry as it
    is, whatever the file holds by then: the file is not opened again. *)
Theorem init_opens_once (disk disk' : str -> tables) (_tm_dbs : tm_dbs_t)
    (LevenshteinComparer : Z -> comparer_t) (db_file : str)
    (a b c a' b' c' : Z) :
  getitem _tm_dbs db_file = None ->
  exists self _tm_dbs',
    __init__ None disk _tm_dbs LevenshteinComparer db_file a b c
    = (Ok self, _tm_dbs') /\
    getitem _tm_dbs' db_file = Some (connect disk db_file) /\
    snd (__init__ None disk' _tm_dbs' LevenshteinComparer db_file a' b' c')
    = _tm_dbs'.
Proof.
  intros Hget. unfold __init__ at 1. rewrite Hget, init_database_returns.
  eexists. eexists. split; [reflexivity|].
  assert (Hnew : getitem (setitem _tm_dbs db_file
                            (Sqlite.commit (connect disk db_file))) db_file
                 = Some (connect disk db_file))
    by apply getitem_setitem_same.
  split; [exact Hnew|].
  unfold __init__. rewrite Hnew, init_database_returns. cbn [snd].
  apply setitem_unchanged. exact Hnew.
Qed.

Lemma init_opens_once_witness :
  exists self _tm_dbs',
    __init__ None (fun _ => working (hello_connection (Some (u "")))) []
             (fun _ => levenshtein_similarity) "tm.db" 3 75 1000
    = (Ok self, _tm_dbs') /\
    getitem _tm_dbs' "tm.db"
    = Some (connect (fun _ => working (hello_connection (Some (u ""))))
                    "tm.db") /\
    snd (__init__ None (fun _ => empty_tables) _tm_dbs'
                  (fun _ => levenshtein_similarity) "tm.db" 5 50 100)
    = _tm_dbs'.
Proof.
  exact (init_opens_once (fun _ => working (hello_connection (Some (u ""))))
           (fun _ => empty_tables) []
           (fun _ => levenshtein_similarity) "tm.db" 3 75 1000 5 50 100
           eq_refl).
Defined.

(** ** Insertion: languages and rows *)

(** X22: a language that the unit declares itself takes precedence: when
    the unit declares both of its languages, the [source_lang] and
    [target_lang] arguments have no influence on what [add_unit] does. *)
Theorem add_unit_own_language_wins (fault : option statement) (now : Z)
    (conn : connection) (unit : translation_unit)
    (sl tl sl' tl' : option str) (commit : bool) :
  truthy (getsourcelanguage unit) = true ->
  truthy (gettargetlanguage unit) = true ->
  add_unit fault now conn unit sl tl commit
  = add_unit fault now conn unit sl' tl' commit.
Proof.
  intros Hs Ht. unfold add_unit. rewrite Hs, Ht. reflexivity.
Qed.

Lemma add_unit_own_language_wins_witness :
  add_unit None 1200000000 empty_connection
    {| source := u "Goodbye"; target := u "Au revoir";
       getcontext := Some (u ""); getsourcelanguage := Some "en";
       gettargetlanguage := Some "fr"; istranslatable := true;
       istranslated := true |}
    (Some "de") (Some "nl") true
  = add_unit None 1200000000 empty_connection
    {| source := u "Goodbye"; target := u "Au revoir";
       getcontext := Some (u ""); getsourcelanguage := Some "en";
       gettargetlanguage := Some "fr"; istranslatable := true;
       istranslated := true |}
    None None true.
Proof.
  apply (add_unit_own_language_wins None 1200000000 empty_connection
           {| source := u "Goodbye"; target := u "Au revoir";
              getcontext := Some (u ""); getsourcelanguage := Some "en";
              gettargetlanguage := Some "fr"; istranslatable := true;
              istranslated := true |}
           (Some "de") (Some "nl") None None true); reflexivity.
Defined.

(** X23: a call of [add_unit] that returns has only appended: the tables
    of the transaction are those from before followed by at most one new
    source row and at most one new target row; no stored row is removed
    or changed. *)
Theorem add_unit_only_appends (fault : option statement) (now : Z)
    (conn conn' : connection) (unit : translation_unit) (sl tl : option str)
    (commit : bool) :
  add_unit fault now conn unit sl tl commit = (Ok tt, conn') ->
  exists new_sources new_targets,
    sources (working conn')
    = (sources (working conn) ++ new_sources)%list /\
    targets (working conn')
    = (targets (working conn) ++ new_targets)%list /\
    (List.length new_sources <= 1)%nat /\
    (List.length new_targets <= 1)%nat.
Proof.
  destruct (truthy_cases (resolve (getsourcelanguage unit) sl)) as [Hs|Hs];
    [destruct (truthy_cases (resolve (gettargetlanguage unit) tl))
       as [Ht|Ht]|].
  - rewrite (add_unit_steps fault now conn unit sl tl commit Hs Ht).
    destruct (source_step _ _ _ _) as [[sid t1]|e1] eqn:H1;
      [|discriminate].
    destruct (target_step _ _ _ _ _ _) as [t2|e2] eqn:H2; [|discriminate].
    intros H.
    assert (Hw : working conn' = t2).
    { destruct commit; [destruct (fails fault Commit)|]; inversion H;
        reflexivity. }
    rewrite Hw. clear H Hw.
    assert (Hsrc : exists ns,
              sources t1 = (sources (working conn) ++ ns)%list /\
                              targets t1 = targets (working conn) /\
                              (List.length ns <= 1)%nat).
    { destruct (source_step_inv _ _ _ _ _ _ H1)
        as [(_ & _ & ->) | (_ & -> & _)].
      - eexists. cbn [add_source sources targets].
        split; [reflexivity|]. split; [reflexivity|]. cbn. lia.
      - exists []. rewrite app_nil_r. cbn. auto. }
    destruct Hsrc as (ns & Hs1 & Ht1 & Hn).
    destruct (target_step_inv _ _ _ _ _ _ _ H2) as [(_ & ->) | (_ & ->)].
    + exists ns. eexists. cbn [add_target sources targets].
      rewrite Hs1, Ht1. split; [reflexivity|]. split; [reflexivity|].
      split; [exact Hn | cbn; lia].
    + exists ns, []. rewrite app_nil_r, Hs1, Ht1. cbn. auto.
  - destruct (add_unit_undefined fault now conn unit sl tl commit
                (or_intror Ht)) as [side ->]. discriminate.
  - destruct (add_unit_undefined fault now conn unit sl tl commit
                (or_introl Hs)) as [side ->]. discriminate.
Qed.

Lemma add_unit_only_appends_witness :
  exists new_sources new_targets,
    sources (working (snd (add_unit None 1200000001
                             (hello_connection (Some (u ""))) goodbye_unit
                             (Some "en") (Some "fr") true)))
    = (sources (working (hello_connection (Some (u "")))) ++ new_sources)%list
    /\
    targets (working (snd (add_unit None 1200000001
                             (hello_connection (Some (u ""))) goodbye_unit
                             (Some "en") (Some "fr") true)))
    = (targets (working (hello_connection (Some (u "")))) ++ new_targets)%list
    /\
    (List.length new_sources <= 1)%nat /\
    (List.length new_targets <= 1)%nat.
Proof.
  apply (add_unit_only_appends None 1200000001
           (hello_connection (Some (u ""))) _ goodbye_unit
           (Some "en") (Some "fr") true).
  vm_compute. reflexivity.
Defined.

Lemma NoDup_map_same {A B : Type} (f : A -> B) (l : list A) (x y : A) :
  NoDup (map f l) -> In x l -> In y l -> f x = f y -> x = y.
Proof.
  induction l as [|a l IH]; simpl; intros Hnd Hx Hy Hf; [destruct Hx|].
  inversion Hnd as [|? ? Hnotin Hnd']; subst.
  destruct Hx as [<-|Hx], Hy as [<-|Hy].
  - reflexivity.
  - exfalso. apply Hnotin. rewrite Hf. apply in_map, Hy.
  - exfalso. apply Hnotin. rewrite <- Hf. apply in_map, Hx.
  - apply IH; assumption.
Qed.

(** X24: a further translation of a stored source is attached to the row
    that is already there.  When the source of the unit, with its context
    and language, is stored as row [r], [add_unit] adds no source row,
    and after the call a target row with the unit's target text and
    language carries the sid of [r]. *)
Theorem add_unit_reuses_sid (now : Z) (conn : connection)
    (unit : translation_unit) (c : unicode) (sl tl : option str)
    (commit : bool) (r : source_row) :
  truthy (resolve (getsourcelanguage unit) sl) = true ->
  truthy (resolve (gettargetlanguage unit) tl) = true ->
  getcontext unit = Some c ->
  sources_unique (working conn) ->
  In r (sources (working conn)) ->
  source_key r
  = (source unit, Some c, lang_value (resolve (getsourcelanguage unit) sl)) ->
  exists conn',
    add_unit None now conn unit sl tl commit = (Ok tt, conn') /\
    sources (working conn') = sources (working conn) /\
    exists tr,
      In tr (targets (working conn')) /\
      t_sid tr = s_sid r /\
      t_text tr = target unit /\
      t_lang tr = lang_value (resolve (gettargetlanguage unit) tl).
Proof.
  intros Hs Ht Hc Huniq Hin Hkey.
  rewrite (add_unit_steps None now conn unit sl tl commit Hs Ht).
  destruct (source_step_no_fault (working conn) unit
              (lang_value (resolve (getsourcelanguage unit) sl)))
    as (sid & t1 & H1).
  destruct (target_step_no_fault now t1 sid unit
              (lang_value (resolve (gettargetlanguage unit) tl)))
    as (t2 & H2).
  rewrite H1, H2.
  assert (Hcol : source_collides (source unit) (getcontext unit)
                   (lang_value (resolve (getsourcelanguage unit) sl)) r
                 = true)
    by (rewrite Hc; apply source_collides_key; exact Hkey).
  assert (Hsame : t1 = working conn /\ sid = s_sid r).
  { destruct (source_step_inv _ _ _ _ _ _ H1)
      as [(Hex & _ & _) | (Hex & -> & Hsel)].
    - pose proof (existsb_false_In _ _ _ Hex Hin). congruence.
    - split; [reflexivity|]. unfold select_sid in Hsel.
      destruct (existsb_find _ _ Hex) as (x & Hf & Hx & Hpx).
      rewrite Hf in Hsel. cbn [option_map] in Hsel. inversion Hsel.
      f_equal. rewrite Hc in Hpx. apply source_collides_key in Hpx.
      assert (Hctx : forall y, source_key y
                = (source unit, Some c,
                   lang_value (resolve (getsourcelanguage unit) sl)) ->
                has_context y = true).
      { intros y Hy. unfold source_key in Hy.
        assert (Hyc : s_context y = Some c) by congruence.
        unfold has_context. rewrite Hyc. reflexivity. }
      apply (NoDup_map_same source_key
               (filter has_context (sources (working conn))) x r Huniq).
      + apply filter_In. split; [exact Hx | apply Hctx, Hpx].
      + apply filter_In. split; [exact Hin | apply Hctx, Hkey].
      + rewrite Hpx, Hkey. reflexivity. }
  destruct Hsame as [-> ->].
  assert (Htr : sources t2 = sources (working conn) /\
                exists tr, In tr (targets t2) /\ t_sid tr = s_sid r /\
                  t_text tr = target unit /\
                  t_lang tr
                  = lang_value (resolve (gettargetlanguage unit) tl)).
  { split; [exact (target_step_sources _ _ _ _ _ _ _ H2)|].
    destruct (target_step_inv _ _ _ _ _ _ _ H2) as [(_ & ->) | (Hex & ->)].
    - eexists. split.
      + cbn [add_target targets]. apply in_or_app. right. left. reflexivity.
      + cbn. auto.
    - destruct (existsb_find _ _ Hex) as (x & _ & Hx & Hpx).
      apply target_collides_key in Hpx. unfold target_key in Hpx.
      inversion Hpx. exists x. auto. }
  destruct Htr as [Hsrc Htr].
  destruct commit; cbn [fails]; eexists; (split; [reflexivity|]);
    cbn [working Sqlite.commit with_working]; split; assumption.
Qed.

Lemma add_unit_reuses_sid_witness :
  exists conn',
    add_unit None 1200000060 (hello_connection (Some (u "")))
      {| source := u "Hello world"; target := u "Salut le monde";
         getcontext := Some (u ""); getsourcelanguage := None;
         gettargetlanguage := None; istranslatable := true;
         istranslated := true |}
      (Some "en") (Some "fr") true = (Ok tt, conn') /\
    sources (working conn') = sources (working (hello_connection (Some (u ""))))
    /\
    exists tr,
      In tr (targets (working conn')) /\
      t_sid tr = s_sid (source_row_of (hello_unit (Some (u ""))) "en" 1) /\
      t_text tr = u "Salut le monde" /\
      t_lang tr = "fr".
Proof.
  apply (add_unit_reuses_sid 1200000060 (hello_connection (Some (u "")))
           {| source := u "Hello world"; target := u "Salut le monde";
              getcontext := Some (u ""); getsourcelanguage := None;
              gettargetlanguage := None; istranslatable := true;
              istranslated := true |}
           (u "") (Some "en") (Some "fr") true
           (source_row_of (hello_unit (Some (u ""))) "en" 1)).
  - reflexivity.
  - reflexivity.
  - reflexivity.
  - unfold sources_unique. vm_compute.
    constructor; [intros [] | constructor].
  - vm_compute. left. reflexivity.
  - reflexivity.
Defined.

(** ** Round trip of a unit without context *)

Lemma join_rows_In (t : tables) (s : source_row) (tr : target_row) :
  In s (sources t) -> In tr (targets t) -> s_sid s = t_sid tr ->
  In (s, tr) (join_rows t).
Proof.
  intros Hs Ht Hsid. unfold join_rows. apply in_flat_map.
  exists s. split; [exact Hs|].
  apply in_map. apply filter_In. split; [exact Ht|].
  apply Z.eqb_eq. exact Hsid.
Qed.

(** C9 (what the code does): [add_unit] stores a unit whose [getcontext()]
    is [None] with a NULL context, and from then on every [translate_unit]
    whose query selects that row raises AttributeError at
    [row[2].encode], whatever else the store holds: the unit that was just
    added is not returned, and neither is any other match. *)
Theorem round_trip_null_context (self : TMDB) (now : Z) (conn : connection)
    (unit : translation_unit) (sl tl : option str) (commit : bool)
    (q : text_arg) (lo hi : Z) :
  truthy (resolve (getsourcelanguage unit) sl) = true ->
  truthy (resolve (gettargetlanguage unit) tl) = true ->
  getcontext unit = None ->
  min_levenshtein_length (len_str (encode_arg q)) (min_similarity self)
  = Ok lo ->
  max_levenshtein_length (len_str (encode_arg q)) (min_similarity self)
                         (max_length self) = Ok hi ->
  lo <= len_unicode (source unit) <= hi ->
  fst (add_unit None now conn unit sl tl commit) = Ok tt /\
  translate_unit self (snd (add_unit None now conn unit sl tl commit)) q
    (LangList [lang_value (resolve (getsourcelanguage unit) sl)])
    (LangList [lang_value (resolve (gettargetlanguage unit) tl)])
  = Raise AttributeError.
Proof.
  intros Hs Ht Hc Hlo Hhi Hlen.
  rewrite (add_unit_steps None now conn unit sl tl commit Hs Ht).
  set (slang := lang_value (resolve (getsourcelanguage unit) sl)).
  set (tlang := lang_value (resolve (gettargetlanguage unit) tl)).
  destruct (source_step_no_fault (working conn) unit slang)
    as (sid & t1 & H1).
  destruct (target_step_no_fault now t1 sid unit tlang) as (t2 & H2).
  rewrite H1, H2.
  (* the source row is new, with a NULL context *)
  assert (Hsrc : In (source_row_of unit slang sid) (sources t2)).
  { rewrite (target_step_sources _ _ _ _ _ _ _ H2).
    destruct (source_step_inv _ _ _ _ _ _ H1)
      as [(_ & _ & ->) | (Hex & _ & _)].
    - cbn [add_source sources]. apply in_or_app. right. left. reflexivity.
    - rewrite Hc in Hex.
      rewrite (existsb_false_all _ _ (source_collides_null _ _)) in Hex.
      discriminate Hex. }
  (* a target row carries its sid *)
  assert (Htgt : exists tr, In tr (targets t2) /\ t_sid tr = sid /\
                            t_lang tr = tlang).
  { destruct (target_step_inv _ _ _ _ _ _ _ H2) as [(_ & ->) | (Hex & ->)].
    - eexists. split.
      + cbn [add_target targets]. apply in_or_app. right. left. reflexivity.
      + split; reflexivity.
    - destruct (existsb_find _ _ Hex) as (x & _ & Hx & Hpx).
      apply target_collides_key in Hpx. unfold target_key in Hpx.
      inversion Hpx. exists x. auto. }
  destruct Htgt as (tr & Htr & Hsid & Hlang).
  assert (Hrow : exists row,
             In row (select_candidates t2 slang tlang lo hi) /\
             s_context (fst row) = None).
  { exists (source_row_of unit slang sid, tr). split; [|exact Hc].
    unfold select_candidates. apply filter_In. split.
    - apply join_rows_In; [exact Hsrc | exact Htr |].
      rewrite Hsid. reflexivity.
    - cbn [fst snd source_row_of s_lang s_length]. rewrite Hlang.
      rewrite !String.eqb_refl.
      destruct Hlen as [Ha Hb]. apply Z.leb_le in Ha, Hb.
      rewrite Ha, Hb. reflexivity. }
  assert (Hq : forall c : connection,
             working c = t2 ->
             translate_unit self c q (LangList [slang]) (LangList [tlang])
             = Raise AttributeError).
  { intros c Hw. unfold translate_unit, candidates.
    rewrite Hlo, Hhi, Hw. cbn [bind join_langs join].
    rewrite (score_rows_raises _ _ _ Hrow). reflexivity. }
  destruct commit; cbn [fails fst snd]; (split; [reflexivity|]);
    apply Hq; reflexivity.
Qed.

(** On a store that holds four good matches for [Hello world], adding the
    same source once more without a context makes the query fail. *)
Lemma round_trip_null_context_witness :
  fst (add_unit None 1200000060 greetings_connection (hello_unit None)
                (Some "en") (Some "fr") true) = Ok tt /\
  translate_unit default_tmdb
    (snd (add_unit None 1200000060 greetings_connection (hello_unit None)
                   (Some "en") (Some "fr") true))
    (StrArg "Hello world") (LangList ["en"]) (LangList ["fr"])
  = Raise AttributeError.
Proof.
  apply (round_trip_null_context default_tmdb 1200000060 greetings_connection
           (hello_unit None) (Some "en") (Some "fr") true
           (StrArg "Hello world") 9 14).
  - reflexivity.
  - reflexivity.
  - reflexivity.
  - vm_compute. reflexivity.
  - vm_compute. reflexivity.
  - vm_compute. split; discriminate.
Defined.
